(** * dendrocat.mastercatalog: a shallow embedding of [MasterCatalog]

    The development follows [src/dendrocat/mastercatalog.py].  An astropy
    table is an ordered list of named, typed, masked columns; a Python
    exception is a value of [exn]; a method of [MasterCatalog] is a
    computation over the object's attributes that either returns or raises,
    and in both cases hands back the (possibly mutated) object.

    Library behaviour is the one of the releases the source was written
    against (astropy 3, numpy 1.15): a table that receives a [MaskedColumn]
    carries a mask on every column, [Table.remove_columns] checks every name
    before it removes any, [Table.add_columns] rejects duplicate names and
    inconsistent lengths, [vstack] joins on the union of the column names, and
    [a[[b]]] with a boolean array [b] selects like [a[b]].

    Floating-point cells are IEEE binary64 values ([PrimFloat]).  The numeric
    reductions of numpy ([numpy.max], [numpy.sum], [numpy.median]) and the
    noise estimator [dendrocat.utils.rms] live outside the source file; they
    are the members of the class [Numerics], and every result below holds for
    every instance. *)

From Stdlib Require Import String Ascii List ZArith Lia Bool PeanoNat PrimFloat.
Import ListNotations.
Local Open Scope string_scope.
Local Open Scope list_scope.

(** Python's [+] on strings. *)
Local Infix "+++" := String.append (at level 60, right associativity).

Set Implicit Arguments.

(** ** Exceptions and results *)

Inductive exn : Type :=
  | AttributeError
  | NameError
  | KeyError
  | TypeError
  | ValueError
  | TableMergeError.

Definition exn_eqb (a b : exn) : bool :=
  match a, b with
  | AttributeError, AttributeError
  | NameError, NameError
  | KeyError, KeyError
  | TypeError, TypeError
  | ValueError, ValueError
  | TableMergeError, TableMergeError => true
  | _, _ => false
  end.

Inductive result (A : Type) : Type :=
  | Success (a : A)
  | Failure (e : exn).
Arguments Success {A} a.
Arguments Failure {A} e.

Definition rbind {A B} (r : result A) (k : A -> result B) : result B :=
  match r with
  | Success a => k a
  | Failure e => Failure e
  end.

Fixpoint mapR {A B} (f : A -> result B) (l : list A) : result (list B) :=
  match l with
  | [] => Success []
  | a :: l' =>
      rbind (f a) (fun b => rbind (mapR f l') (fun bs => Success (b :: bs)))
  end.

(** ** Floats *)

Definition fnan : float := PrimFloat.nan.


(** Conversion of a Python integer stored into a float64 array (exact below
    2^53). *)
Fixpoint float_of_pos (p : positive) : float :=
  match p with
  | xH => 1%float
  | xO q => (2 * float_of_pos q)%float
  | xI q => (2 * float_of_pos q + 1)%float
  end.

Definition float_of_Z (z : Z) : float :=
  match z with
  | Z0 => 0%float
  | Zpos p => float_of_pos p
  | Zneg p => (- float_of_pos p)%float
  end.

Definition float_of_nat (n : nat) : float := float_of_Z (Z.of_nat n).

(** ** Tables *)

(** The data of a column: one numpy dtype per column. *)
Inductive coldata : Type :=
  | DFloat (xs : list float)
  | DInt (xs : list Z)
  | DStr (xs : list string).

Record column : Type := mkColumn {
  cname : string;
  cdata : coldata;
  cmask : list bool
}.

Definition table : Type := list column.

Definition dlen (d : coldata) : nat :=
  match d with
  | DFloat xs => length xs
  | DInt xs => length xs
  | DStr xs => length xs
  end.

(** [len(col)] *)
Definition clen (c : column) : nat := dlen (cdata c).

(** [table.colnames] *)
Definition colnames (t : table) : list string := map cname t.

(** [len(table)] *)
Definition nrows (t : table) : nat :=
  match t with
  | [] => 0
  | c :: _ => clen c
  end.

Definition has_col (t : table) (n : string) : bool :=
  existsb (String.eqb n) (colnames t).

(** [table[name]]; [None] stands for the [KeyError]. *)
Definition getcol (t : table) (n : string) : option column :=
  find (fun c => String.eqb (cname c) n) t.

(** [MaskedColumn(data=xs, name=n)]: a float column, nothing masked. *)
Definition MaskedColumn (xs : list float) (n : string) : column :=
  mkColumn n (DFloat xs) (repeat false (length xs)).

(** The invariant astropy maintains on a masked table: column names are
    unique, every column has the same length, every mask covers its data. *)
Definition wf_col (n : nat) (c : column) : Prop :=
  clen c = n /\ length (cmask c) = n.

Definition wf_table (t : table) : Prop :=
  NoDup (colnames t) /\ Forall (wf_col (nrows t)) t.

(** The table without the columns called [names]. *)
Definition without (names : list string) (t : table) : table :=
  filter (fun c => negb (existsb (String.eqb (cname c)) names)) t.

(** [table.remove_columns(names)]: a [KeyError] when a name is missing, and
    then nothing is removed. *)
Definition remove_columns (names : list string) (t : table) : result table :=
  if forallb (has_col t) names
  then Success (without names t)
  else Failure KeyError.

Fixpoint nodupb (l : list string) : bool :=
  match l with
  | [] => true
  | x :: l' => negb (existsb (String.eqb x) l') && nodupb l'
  end.

Definition same_lengths (t : table) : bool :=
  match t with
  | [] => true
  | c :: t' => forallb (fun c' => Nat.eqb (clen c') (clen c)) t'
  end.

(** [table.add_columns(cols)]: the new columns go after the existing ones; a
    [ValueError] on inconsistent lengths or on a duplicate name, and then the
    table is left as it was. *)
Definition add_columns (cols : list column) (t : table) : result table :=
  let newcols := t ++ cols in
  if negb (same_lengths newcols) then Failure ValueError
  else if negb (nodupb (colnames newcols)) then Failure ValueError
  else Success newcols.

(** The "Mask NaN values" loop of [photometer], one column:
    [numpy.isnan] raises [TypeError] on a string column (caught, the column
    is left alone) and is false everywhere on an integer column. *)
Fixpoint mask_or (m : list bool) (b : list bool) : list bool :=
  match m, b with
  | x :: m', y :: b' => (x || y) :: mask_or m' b'
  | _, _ => m
  end.

Definition remask_col (c : column) : column :=
  match cdata c with
  | DFloat xs => mkColumn (cname c) (cdata c) (mask_or (cmask c) (map PrimFloat.is_nan xs))
  | DInt _ => c
  | DStr _ => c
  end.

Definition remask (t : table) : table := map remask_col t.

(** A cell, as a reader of the table sees it. *)
Inductive value : Type :=
  | VFloat (x : float)
  | VInt (z : Z)
  | VStr (s : string).

Definition dnth (d : coldata) (i : nat) : option value :=
  match d with
  | DFloat xs => option_map VFloat (nth_error xs i)
  | DInt xs => option_map VInt (nth_error xs i)
  | DStr xs => option_map VStr (nth_error xs i)
  end.

(** [stored t n i]: the value stored in row [i] of column [n]. *)
Definition stored (t : table) (n : string) (i : nat) : option value :=
  match getcol t n with
  | Some c => dnth (cdata c) i
  | None => None
  end.

(** [masked t n i]: row [i] of column [n] is masked. *)
Definition masked (t : table) (n : string) (i : nat) : bool :=
  match getcol t n with
  | Some c => nth i (cmask c) false
  | None => false
  end.



(** ** Pixel sets, apertures, frequency objects *)

(** What [get_pixels] hands back for one source: a numpy array, or a bare
    Python float for what the source calls a single pixel aperture. *)
Inductive pixels : Type :=
  | PScalar (x : float)
  | PArray (xs : list float).

(** An aperture is used through its [__name__] only. *)
Record aperture : Type := mkAperture { ap_name : string }.

Definition aperture_eqb (a b : aperture) : bool :=
  String.eqb (ap_name a) (ap_name b).

(** A [RadioSource], as far as [MasterCatalog] uses it.  [get_pixels ap cat]
    stands for [_make_cutouts(catalog=cat, save=False)] followed by
    [get_pixels(ap, catalog=cat, data=data, cutouts=cutouts)[0]]. *)
Record RadioSource : Type := mkRadioSource {
  freq_id : string;
  nu : float;
  ppbeam : float;
  get_pixels : aperture -> table -> list pixels
}.

(** The numeric routines imported by the module. *)
Class Numerics : Type := {
  (** [numpy.max] of a non-empty array *)
  np_max : list float -> float;
  (** [numpy.sum] of an array *)
  np_sum : list float -> float;
  (** [numpy.median] of an array *)
  np_median : list float -> float;
  (** [dendrocat.utils.rms] *)
  rms : pixels -> float
}.

(** [np.isnan(p).any()] *)
Definition any_nan (p : pixels) : bool :=
  match p with
  | PScalar x => PrimFloat.is_nan x
  | PArray xs => existsb PrimFloat.is_nan xs
  end.

(** The values of a pixel set, a scalar being seen by numpy as one value. *)
Definition pix_values (p : pixels) : list float :=
  match p with
  | PScalar x => [x]
  | PArray xs => xs
  end.

(** [p > 0.] used as a selector. *)
Definition positive_pixels (xs : list float) : list float :=
  filter (fun x => PrimFloat.ltb 0 x) xs.

Section Statistics.
Context {N : Numerics}.

(** [np.max(p)]: a [ValueError] on an empty array. *)
Definition peak_of (p : pixels) : result float :=
  match p with
  | PArray [] => Failure ValueError
  | _ => Success (np_max (pix_values p))
  end.

(** [np.sum(p[[p > 0.]])/ppbeam], with the [TypeError] of subscripting a
    float caught and turned into a NaN. *)
Definition sum_of (beam : float) (p : pixels) : float :=
  match p with
  | PScalar _ => fnan
  | PArray xs => (np_sum (positive_pixels xs) / beam)%float
  end.

Definition rms_of (p : pixels) : float := rms p.

(** [np.median(p)] *)
Definition median_of (p : pixels) : float := np_median (pix_values p).

(** The body of the [npix] loop: [len(p)] raises [TypeError] on a float. *)
Definition npix_of (p : pixels) : result float :=
  if any_nan p then Success fnan
  else match p with
       | PScalar _ => Failure TypeError
       | PArray xs => Success (float_of_nat (length xs))
       end.
End Statistics.

(** The five column names of one (frequency, aperture) pair, in the order of
    the list [names] of [photometer]. *)
Definition stat_suffixes : list string :=
  ["_peak"; "_sum"; "_rms"; "_median"; "_npix"].

Definition col_prefix (fid : string) (ap : aperture) : string :=
  fid +++ "_" +++ ap_name ap.

Definition stat_names (fid : string) (ap : aperture) : list string :=
  map (fun suf => col_prefix fid ap +++ suf) stat_suffixes.

(** ** The catalog object *)

(** The attributes of a [MasterCatalog].  [catalog] and [nonrejected] are
    bound by [__init__] when a table is given; [accepted] is read by [grab]
    and bound by no method, so it is there only when a caller has set it;
    [radiosources] are the [radiosource_<freq_id>] entries of [__dict__], in
    insertion order. *)
Record MasterCatalog : Type := mkMasterCatalog {
  catalog : option table;
  nonrejected : option table;
  accepted : option table;
  radiosources : list (string * RadioSource)
}.

Definition set_catalog (t : table) (mc : MasterCatalog) : MasterCatalog :=
  mkMasterCatalog (Some t) (nonrejected mc) (accepted mc) (radiosources mc).

(** The free names the methods read from the module namespace.  The source
    file binds none of them ([module_namespace]); a field is [Some] when the
    name has been bound from outside. *)
Record namespace : Type := mkNamespace {
  g_names : option (list string);
  g_ellipse : option aperture;
  g_annulus : option aperture
}.

Definition module_namespace : namespace := mkNamespace None None None.

(** A method call: it returns or raises, and leaves the object behind. *)
Inductive outcome (A : Type) : Type :=
  | Ok (a : A) (self : MasterCatalog)
  | Raise (e : exn) (self : MasterCatalog).
Arguments Ok {A} a self.
Arguments Raise {A} e self.

Definition M (A : Type) : Type := MasterCatalog -> outcome A.

Definition ret {A} (a : A) : M A := fun self => Ok a self.
Definition raise {A} (e : exn) : M A := fun self => Raise e self.
Definition bind {A B} (m : M A) (k : A -> M B) : M B :=
  fun self =>
    match m self with
    | Ok a self' => k a self'
    | Raise e self' => Raise e self'
    end.

(** [try: m except e: h] *)
Definition try_except {A} (m : M A) (e : exn) (h : M A) : M A :=
  fun self =>
    match m self with
    | Ok a self' => Ok a self'
    | Raise e' self' => if exn_eqb e e' then h self' else Raise e' self'
    end.

Declare Scope py_scope.
Delimit Scope py_scope with py.
Notation "x <- m ;; k" := (bind m (fun x => k))
  (at level 61, m at next level, right associativity) : py_scope.
Notation "m ;; k" := (bind m (fun _ => k))
  (at level 61, right associativity) : py_scope.
Local Open Scope py_scope.

Definition lift {A} (r : result A) : M A :=
  fun self =>
    match r with
    | Success a => Ok a self
    | Failure e => Raise e self
    end.

(** [self.catalog] *)
Definition self_catalog : M table :=
  fun self =>
    match catalog self with
    | Some t => Ok t self
    | None => Raise AttributeError self
    end.

(** [self.accepted] *)
Definition self_accepted : M table :=
  fun self =>
    match accepted self with
    | Some t => Ok t self
    | None => Raise AttributeError self
    end.

(** An in-place update of the table object bound to [self.catalog]. *)
Definition update_catalog (t : table) : M unit :=
  fun self => Ok tt (set_catalog t self).

Fixpoint for_each {A} (l : list A) (body : A -> M unit) : M unit :=
  match l with
  | [] => ret tt
  | a :: l' => body a ;; for_each l' body
  end.

(** A loop that carries a local variable from one iteration to the next. *)
Fixpoint for_each_with {A V} (l : list A) (v : V) (body : A -> V -> M V) : M V :=
  match l with
  | [] => ret v
  | a :: l' => v' <- body a v ;; for_each_with l' v' body
  end.

(** ** Rows *)

Definition dselect (idx : list nat) (d : coldata) : coldata :=
  match d with
  | DFloat xs => DFloat (map (fun i => nth i xs 0%float) idx)
  | DInt xs => DInt (map (fun i => nth i xs 0%Z) idx)
  | DStr xs => DStr (map (fun i => nth i xs "") idx)
  end.

Definition select_col (idx : list nat) (c : column) : column :=
  mkColumn (cname c) (dselect idx (cdata c)) (map (fun i => nth i (cmask c) false) idx).

(** [table[idx]] for a list or array of row numbers (an empty one gives the
    table without rows). *)
Definition take_rows (idx : list nat) (t : table) : table :=
  map (select_col idx) t.

(** [np.where(b)[0]] *)
Fixpoint where_from (k : nat) (b : list bool) : list nat :=
  match b with
  | [] => []
  | x :: b' => if x then k :: where_from (S k) b' else where_from (S k) b'
  end.

Definition np_where (b : list bool) : list nat := where_from 0 b.

Fixpoint zip_with {A B C} (f : A -> B -> C) (l : list A) (m : list B) : list C :=
  match l, m with
  | a :: l', b :: m' => f a b :: zip_with f l' m'
  | _, _ => []
  end.

(** [col == s] for a Python string [s]: a masked cell compares false, and so
    does every cell of a numeric column. *)
Definition col_eq_str (c : column) (s : string) : list bool :=
  match cdata c with
  | DStr xs => zip_with (fun x m => negb m && String.eqb x s) xs (cmask c)
  | DInt xs => map (fun _ => false) xs
  | DFloat xs => map (fun _ => false) xs
  end.

(** [col == z] for a Python integer [z]. *)
Definition col_eq_int (c : column) (z : Z) : list bool :=
  match cdata c with
  | DInt xs => zip_with (fun x m => negb m && Z.eqb x z) xs (cmask c)
  | DFloat xs => zip_with (fun x m => negb m && PrimFloat.eqb x (float_of_Z z)) xs (cmask c)
  | DStr xs => map (fun _ => false) xs
  end.

(** [table[b]] for a boolean array [b]. *)
Definition filter_rows (b : list bool) (t : table) : table :=
  take_rows (np_where b) t.

(** ** Construction and registration *)

Inductive object : Type :=
  | ObjRadioSource (rs : RadioSource)
  | ObjMasterCatalog (mc : MasterCatalog).

(** [d[k] = v] on an insertion-ordered dictionary. *)
Fixpoint dict_set {V} (k : string) (v : V) (d : list (string * V)) : list (string * V) :=
  match d with
  | [] => [(k, v)]
  | (k', v') :: d' =>
      if String.eqb k' k then (k, v) :: d' else (k', v') :: dict_set k v d'
  end.

Definition obj_prefix : string := "radiosource_".

(** [add_objects]: a frequency object is stored under
    ['radiosource_' + freq_id]; for a [MasterCatalog] argument the method
    subscripts the argument itself for every registered key, which a
    [MasterCatalog] does not support. *)
Definition add_object (obj : object) : M unit :=
  fun self =>
    match obj with
    | ObjMasterCatalog other =>
        match radiosources other with
        | [] => Ok tt self
        | _ :: _ => Raise TypeError self
        end
    | ObjRadioSource rs =>
        Ok tt (mkMasterCatalog (catalog self) (nonrejected self) (accepted self)
                 (dict_set (obj_prefix +++ freq_id rs) rs (radiosources self)))
    end.

Definition add_objects (args : list object) : M unit :=
  for_each args add_object.

(** The constructor, [__init__], with its positional arguments [args] and
    its keyword [catalog]. *)
Definition MasterCatalog_init (args : list object) (cat : option table)
  : outcome unit :=
  let fresh := mkMasterCatalog None None None [] in
  match cat with
  | None => add_objects args fresh
  | Some t =>
      match getcol t "rejected" with
      | None => Raise KeyError (mkMasterCatalog (Some t) None None [])
      | Some r =>
          add_objects args
            (mkMasterCatalog (Some t) (Some (filter_rows (col_eq_int r 0) t)) None [])
      end
  end.

(** [self.__dict__.values()] filtered by [isinstance(obj, RadioSource)] *)
Definition rs_objects_of (self : MasterCatalog) : list RadioSource :=
  map snd (radiosources self).

(** ** [grab] *)

Inductive name_arg : Type :=
  | NameOne (name : string)
  | NameMany (name : list string).

(** [col[i] in names] *)
Definition cell_in (c : column) (i : nat) (names : list string) : bool :=
  match cdata c with
  | DStr xs =>
      negb (nth i (cmask c) false) && existsb (String.eqb (nth i xs "")) names
  | _ => false
  end.

(** The loop of the collection branch.  Its test reads the free name
    [names], not the parameter [name]. *)
Fixpoint grab_indices (G : namespace) (cat : table) (rows : list nat)
  : result (list nat) :=
  match rows with
  | [] => Success []
  | i :: rows' =>
      match getcol cat "_name" with
      | None => Failure KeyError
      | Some c =>
          match g_names G with
          | None => Failure NameError
          | Some names =>
              rbind (grab_indices G cat rows')
                (fun indices =>
                   Success (if cell_in c i names then i :: indices else indices))
          end
      end
  end.

Definition grab (G : namespace) (name : name_arg) (skip_rejects : bool) : M table :=
  cat <- (if skip_rejects then self_accepted else self_catalog) ;;
  match name with
  | NameMany _ =>
      indices <- lift (grab_indices G cat (seq 0 (nrows cat))) ;;
      ret (take_rows indices cat)
  | NameOne n =>
      t <- self_catalog ;;
      match getcol t "_name" with
      | None => raise KeyError
      | Some c => ret (filter_rows (col_eq_str c n) t)
      end
  end.

(** ** [add_sources] *)

(** Concatenation of two columns of one name: numbers go together (integers
    are promoted next to floats), strings go together, anything else is a
    [TableMergeError]. *)
Definition dapp (a b : coldata) : result coldata :=
  match a, b with
  | DFloat x, DFloat y => Success (DFloat (x ++ y))
  | DInt x, DInt y => Success (DInt (x ++ y))
  | DStr x, DStr y => Success (DStr (x ++ y))
  | DFloat x, DInt y => Success (DFloat (x ++ map float_of_Z y))
  | DInt x, DFloat y => Success (DFloat (map float_of_Z x ++ y))
  | _, _ => Failure TableMergeError
  end.

Definition dapp_fill_right (a : coldata) (n : nat) : coldata :=
  match a with
  | DFloat x => DFloat (x ++ repeat 0%float n)
  | DInt x => DInt (x ++ repeat 0%Z n)
  | DStr x => DStr (x ++ repeat "" n)
  end.

Definition dapp_fill_left (n : nat) (b : coldata) : coldata :=
  match b with
  | DFloat y => DFloat (repeat 0%float n ++ y)
  | DInt y => DInt (repeat 0%Z n ++ y)
  | DStr y => DStr (repeat "" n ++ y)
  end.

(** One output column of [vstack([t, s])] for a column [c] of [t]. *)
Definition stack_left (s : table) (c : column) : result column :=
  match getcol s (cname c) with
  | Some c' =>
      rbind (dapp (cdata c) (cdata c'))
        (fun d => Success (mkColumn (cname c) d (cmask c ++ cmask c')))
  | None =>
      Success (mkColumn (cname c) (dapp_fill_right (cdata c) (nrows s))
                 (cmask c ++ repeat true (nrows s)))
  end.

(** One output column for a column [c'] that only [s] has. *)
Definition stack_right (t : table) (c' : column) : column :=
  mkColumn (cname c') (dapp_fill_left (nrows t) (cdata c'))
    (repeat true (nrows t) ++ cmask c').

(** The columns only [s] has. *)
Definition only_right (t s : table) : table :=
  filter (fun c' => negb (has_col t (cname c'))) s.

(** [vstack([t, s])] with the default outer join: the columns of [t], then
    the columns only [s] has; rows of [t], then rows of [s]; a cell a table
    does not have is masked. *)
Definition vstack (t s : table) : result table :=
  rbind (mapR (stack_left s) t)
    (fun left => Success (left ++ map (stack_right t) (only_right t s))).

(** [range(n)] as an integer column *)
Definition range_col (n : nat) (name : string) : column :=
  mkColumn name (DInt (map Z.of_nat (seq 0 n))) (repeat false n).

(** [table[name] = range(len(table))]: an existing column is replaced where
    it stands, a new one goes last. *)
Fixpoint set_range_col (name : string) (n : nat) (t : table) : table :=
  match t with
  | [] => [range_col n name]
  | c :: t' =>
      if String.eqb (cname c) name then range_col n name :: t'
      else c :: set_range_col name n t'
  end.

Definition add_sources (args : list table) : M unit :=
  for_each args (fun sources =>
    t <- self_catalog ;;
    stacked <- lift (vstack t sources) ;;
    update_catalog stacked ;;
    update_catalog (set_range_col "_index" (nrows stacked) stacked)).

(** ** [photometer] *)

Definition stat_name (rs_obj : RadioSource) (ap : aperture) (suf : string) : string :=
  col_prefix (freq_id rs_obj) ap +++ suf.

Section Photometer.
Context {N : Numerics}.

(** The five columns computed from the pixel sets of one frequency object.
    The [npix] column is built inside its loop, so with no pixel set at all
    the local variable [aperture_npix_col] keeps what it held before
    ([prev]). *)
Definition stat_columns (rs_obj : RadioSource) (ap : aperture)
    (pix_in_aperture : list pixels) (prev : option column)
  : result (list column * option column) :=
  rbind (mapR peak_of pix_in_aperture) (fun peak_data =>
  let aperture_peak_col := MaskedColumn peak_data (stat_name rs_obj ap "_peak") in
  let sum_data := map (sum_of (ppbeam rs_obj)) pix_in_aperture in
  let aperture_sum_col := MaskedColumn sum_data (stat_name rs_obj ap "_sum") in
  let rms_data := map rms_of pix_in_aperture in
  let aperture_rms_col := MaskedColumn rms_data (stat_name rs_obj ap "_rms") in
  let median_data := map median_of pix_in_aperture in
  let aperture_median_col := MaskedColumn median_data (stat_name rs_obj ap "_median") in
  rbind (mapR npix_of pix_in_aperture) (fun npix_data =>
  let aperture_npix_col :=
    match pix_in_aperture with
    | [] => prev
    | _ :: _ => Some (MaskedColumn npix_data (stat_name rs_obj ap "_npix"))
    end in
  Success ([aperture_peak_col; aperture_sum_col; aperture_rms_col;
            aperture_median_col], aperture_npix_col))).

(** The column merge: remove the five names when all are there, append the
    new columns, mask the NaN cells of every column. *)
Definition merge_columns (names : list string) (cols : list column)
    (npix : option column) : M unit :=
  try_except
    (t <- self_catalog ;;
     t' <- lift (remove_columns names t) ;;
     update_catalog t')
    KeyError (ret tt) ;;
  t <- self_catalog ;;
  npix_col <- (match npix with
               | Some c => ret c
               | None => raise NameError
               end) ;;
  t' <- lift (add_columns (cols ++ [npix_col]) t) ;;
  update_catalog t' ;;
  update_catalog (remask t').

(** One iteration of the loop over [rs_objects].  [cat] is the keyword
    argument: [None] when the caller left it out, and then the name
    [catalog] is bound to the very table object behind [self.catalog]. *)
Definition photometer_rs (ap : aperture) (cat : option table)
    (rs_obj : RadioSource) (prev : option column) : M (option column) :=
  catalog_ <- (match cat with
               | Some c => ret c
               | None => self_catalog
               end) ;;
  let pix_in_aperture := get_pixels rs_obj ap catalog_ in
  let names := stat_names (freq_id rs_obj) ap in
  stats <- lift (stat_columns rs_obj ap pix_in_aperture prev) ;;
  merge_columns names (fst stats) (snd stats) ;;
  ret (snd stats).

Definition photometer_aperture (cat : option table) (ap : aperture)
    (prev : option column) : M (option column) :=
  (match cat with
   | Some _ => ret tt
   | None => self_catalog ;; ret tt
   end) ;;
  rs_objects <- (fun self => Ok (rs_objects_of self) self) ;;
  for_each_with rs_objects prev (photometer_rs ap cat).

(** [photometer]: [args] are the apertures, [cat] the keyword [catalog]. *)
Definition photometer (args : list aperture) (cat : option table) : M unit :=
  for_each_with args None (photometer_aperture cat) ;; ret tt.
End Photometer.

(** ** [ffplot]: the comparison data *)

(** [set(l)] on apertures, listed in order of first occurrence. *)
Fixpoint ap_set (l : list aperture) : list aperture :=
  match l with
  | [] => []
  | a :: l' => a :: filter (fun b => negb (aperture_eqb a b)) (ap_set l')
  end.

Definition ap_mem (a : aperture) (l : list aperture) : bool :=
  existsb (aperture_eqb a) l.

(** [a ^ b] on sets of apertures *)
Definition ap_xor (a b : list aperture) : list aperture :=
  filter (fun x => negb (ap_mem x b)) a ++ filter (fun x => negb (ap_mem x a)) b.

Definition nat_mem (i : nat) (l : list nat) : bool := existsb (Nat.eqb i) l.

(** [a.union(b)] and [a ^ b] on sets of row numbers *)
Definition nat_union (a b : list nat) : list nat :=
  a ++ filter (fun x => negb (nat_mem x a)) b.

Definition nat_xor (a b : list nat) : list nat :=
  filter (fun x => negb (nat_mem x b)) a ++ filter (fun x => negb (nat_mem x a)) b.

(** The column names collected in [cols], one aperture. *)
Definition required_cols_of (rsobj1 rsobj2 : RadioSource) (peak : bool)
    (ap : aperture) : list string :=
  [stat_name rsobj1 ap "_rms"; stat_name rsobj2 ap "_rms"] ++
  (if peak
   then [stat_name rsobj1 ap "_peak"; stat_name rsobj2 ap "_peak"]
   else [stat_name rsobj1 ap "_sum"; stat_name rsobj2 ap "_sum"]).

Definition required_cols (rsobj1 rsobj2 : RadioSource) (peak : bool)
    (apertures : list aperture) : list string :=
  flat_map (required_cols_of rsobj1 rsobj2 peak) apertures.

(** [np.nonzero(catalog.mask[cols])[0]]: the rows masked in one of [cols]. *)
Definition masked_rows (t : table) (cols : list string) : list nat :=
  filter (fun i => existsb (fun n => masked t n i) cols) (seq 0 (nrows t)).

(** The row filter: all rows, less the rows masked in a required column and
    the rows with [rejected == 1].  A missing column is a [KeyError]. *)
Definition comparison_index (t : table) (cols : list string) : result (list nat) :=
  if forallb (has_col t) cols then
    match getcol t "rejected" with
    | None => Failure KeyError
    | Some r =>
        Success (nat_xor (seq 0 (nrows t))
                   (nat_union (masked_rows t cols) (np_where (col_eq_int r 1))))
    end
  else Failure KeyError.

Definition getitem (t : table) (n : string) : result column :=
  match getcol t n with
  | Some c => Success c
  | None => Failure KeyError
  end.

(** What [ffplot] hands to the plotting calls. *)
Record comparison : Type := mkComparison {
  flux1 : list column;
  flux2 : list column;
  err1 : list column;
  err2 : list column;
  marker_labels : column
}.

Definition global {A} (g : option A) : M A :=
  match g with
  | Some a => ret a
  | None => raise NameError
  end.

(** [if rsobj1.nu > rsobj2.nu: rsobj1, rsobj2 = rsobj2, rsobj1] *)
Definition lower_freq (rsobj1 rsobj2 : RadioSource) : RadioSource :=
  if PrimFloat.ltb (nu rsobj2) (nu rsobj1) then rsobj2 else rsobj1.

Definition higher_freq (rsobj1 rsobj2 : RadioSource) : RadioSource :=
  if PrimFloat.ltb (nu rsobj2) (nu rsobj1) then rsobj1 else rsobj2.

Section FluxComparison.
Context {N : Numerics}.

(** The filter with its recovery: on a [KeyError] the photometry of every
    aperture is run and the filter is tried once more on the new table. *)
Definition filtered_catalog (cat : table) (apertures : list aperture)
    (cols : list string) : M table :=
  try_except
    (index <- lift (comparison_index cat cols) ;;
     ret (take_rows index cat))
    KeyError
    (for_each apertures (fun ap => photometer [ap] None) ;;
     cat' <- self_catalog ;;
     index <- lift (comparison_index cat' cols) ;;
     ret (take_rows index cat')).

(** [ffplot] up to the point where the series are handed to matplotlib. *)
Definition ffplot (G : namespace) (rsobj1 rsobj2 : RadioSource)
    (apertures : list aperture) (peak : bool) : M comparison :=
  let rs1 := lower_freq rsobj1 rsobj2 in
  let rs2 := higher_freq rsobj1 rsobj2 in
  cat <- self_catalog ;;
  ellipse <- global (g_ellipse G) ;;
  annulus <- global (g_annulus G) ;;
  let apertures := ap_set (apertures ++ [ellipse; annulus]) in
  let cols := required_cols rs1 rs2 peak apertures in
  cat <- filtered_catalog cat apertures cols ;;
  let stat := if peak then "_peak" else "_sum" in
  let shown := ap_xor apertures [annulus] in
  f1 <- lift (mapR (fun ap => getitem cat (stat_name rs1 ap stat)) shown) ;;
  f2 <- lift (mapR (fun ap => getitem cat (stat_name rs2 ap stat)) shown) ;;
  e1 <- lift (getitem cat (freq_id rs1 +++ "_annulus_rms")) ;;
  e2 <- lift (getitem cat (freq_id rs2 +++ "_annulus_rms")) ;;
  labels <- lift (getitem cat "_name") ;;
  ret (mkComparison f1 f2 [e1] [e2] labels).
End FluxComparison.

(** ** Notions used to state the properties *)

(** The five columns [photometer] appends for one frequency object, when
    there is at least one pixel set. *)
Definition five_columns {N : Numerics} (rs_obj : RadioSource) (ap : aperture)
    (pix : list pixels) : result (list column) :=
  rbind (stat_columns rs_obj ap pix None)
    (fun r =>
       match snd r with
       | Some c => Success (fst r ++ [c])
       | None => Failure NameError
       end).

(** The table after one successful column merge. *)
Definition merged (names : list string) (cols : list column) (t : table) : table :=
  remask (without names t ++ cols).

(** The local variable [aperture_npix_col] is unbound or holds a column
    built from at least one pixel set. *)
Definition npix_var_ok (prev : option column) : Prop :=
  match prev with
  | None => True
  | Some c => 0 < clen c
  end.

Fixpoint lprefix (a b : list ascii) : bool :=
  match a, b with
  | [] , _ => true
  | x :: a', y :: b' => Ascii.eqb x y && lprefix a' b'
  | _ :: _, [] => false
  end.

(** [s.endswith(suf)] *)
Definition ends_with (suf s : string) : bool :=
  lprefix (rev (list_ascii_of_string suf)) (rev (list_ascii_of_string s)).

(** A name that ends like a photometry column. *)
Definition is_stat_name (n : string) : bool :=
  existsb (fun suf => ends_with suf n) stat_suffixes.

(** What a table says about the sources themselves: the data of the columns
    that are not photometry columns, masks left out. *)
Definition geometry (t : table) : list (string * coldata) :=
  map (fun c => (cname c, cdata c))
    (filter (fun c => negb (is_stat_name (cname c))) t).

(** The cutout and pixel extraction of a frequency object look at the
    sources, not at the photometry already in the table. *)
Definition reads_geometry (rs_obj : RadioSource) : Prop :=
  forall ap t t', geometry t = geometry t' ->
    get_pixels rs_obj ap t = get_pixels rs_obj ap t'.

(** A float column with a NaN in it. *)
Definition has_nan (c : column) : bool :=
  match cdata c with
  | DFloat xs => existsb PrimFloat.is_nan xs
  | _ => false
  end.



(** The kind of a column, as [vstack] compares them. *)
Definition is_str (d : coldata) : bool :=
  match d with
  | DStr _ => true
  | _ => false
  end.

Definition same_kind (a b : coldata) : bool :=
  match a, b with
  | DFloat _, DFloat _ | DInt _, DInt _ | DStr _, DStr _ => true
  | _, _ => false
  end.

(** Two tables with the same columns: the same names, each of one kind. *)
Definition compatible (t s : table) : Prop :=
  forall n,
    match getcol t n, getcol s n with
    | Some c, Some c' => same_kind (cdata c) (cdata c') = true
    | None, None => True
    | _, _ => False
    end.

(** The columns two tables share can be concatenated. *)
Definition mergeable (t s : table) : bool :=
  forallb (fun c =>
             match getcol s (cname c) with
             | Some c' => Bool.eqb (is_str (cdata c)) (is_str (cdata c'))
             | None => true
             end) t.

(** [_index] holds 0, 1, ... up to the row count, nothing masked. *)
Definition dense_index (t : table) : Prop :=
  getcol t "_index" = Some (range_col (nrows t) "_index").



(** [steps ap l t t']: the loop of [photometer] over the frequency objects
    [l], started on table [t] with the default [catalog], runs to its end and
    leaves table [t'].  One constructor per completed iteration. *)
Inductive steps {N : Numerics} (ap : aperture)
  : list RadioSource -> table -> table -> Prop :=
  | steps_nil (t : table) : steps ap [] t t
  | steps_cons (rs_obj : RadioSource) (l : list RadioSource) (t t' : table)
      (cols : list column) :
      five_columns rs_obj ap (get_pixels rs_obj ap t) = Success cols ->
      same_lengths (without (stat_names (freq_id rs_obj) ap) t ++ cols) = true ->
      NoDup (colnames (without (stat_names (freq_id rs_obj) ap) t ++ cols)) ->
      steps ap l (merged (stat_names (freq_id rs_obj) ap) cols t) t' ->
      steps ap (rs_obj :: l) t t'.

(** [runs objs args t t']: the loop of [photometer] over the apertures
    [args], each with its loop over the frequency objects [objs], runs to its
    end from table [t] and leaves [t']. *)
Inductive runs {N : Numerics} (objs : list RadioSource)
  : list aperture -> table -> table -> Prop :=
  | runs_nil (t : table) : runs objs [] t t
  | runs_cons (ap : aperture) (args : list aperture) (t t1 t' : table) :
      steps ap objs t t1 -> runs objs args t1 t' ->
      runs objs (ap :: args) t t'.

(** A column name none of the processed (frequency, aperture) pairs
    produces. *)
Definition untouched (objs : list RadioSource) (args : list aperture)
    (n : string) : Prop :=
  forall rs_obj ap, In rs_obj objs -> In ap args ->
    ~ In n (stat_names (freq_id rs_obj) ap).


(** Every mask is as long as its column. *)
Definition masks_cover (t : table) : Prop :=
  Forall (fun c => length (cmask c) = clen c) t.

(** Two objects that differ in their table only. *)
Definition same_attributes (a b : MasterCatalog) : Prop :=
  nonrejected a = nonrejected b /\ accepted a = accepted b
  /\ radiosources a = radiosources b.

(** ** A reference instance of the numeric routines

    Sequential versions, used to run the model on concrete inputs. *)

Definition fmax2 (a b : float) : float :=
  if PrimFloat.is_nan a then a
  else if PrimFloat.leb b a then a else b.

Definition ref_max (xs : list float) : float :=
  match xs with
  | [] => fnan
  | x :: xs' => fold_left fmax2 xs' x
  end.

Definition ref_sum (xs : list float) : float :=
  fold_left PrimFloat.add xs 0%float.

Fixpoint finsert (x : float) (l : list float) : list float :=
  match l with
  | [] => [x]
  | y :: l' => if PrimFloat.leb x y then x :: l else y :: finsert x l'
  end.

Definition fsort (l : list float) : list float := fold_right finsert [] l.

Definition ref_median (xs : list float) : float :=
  if existsb PrimFloat.is_nan xs then fnan
  else
    let s := fsort xs in
    let n := length s in
    match n with
    | 0 => fnan
    | _ =>
        if Nat.even n
        then ((nth (n / 2 - 1) s 0 + nth (n / 2) s 0) / 2)%float
        else nth (n / 2) s 0%float
    end.

Definition ref_rms (p : pixels) : float :=
  let xs := pix_values p in
  PrimFloat.sqrt
    (ref_sum (map (fun x => (x * x)%float) xs) / float_of_nat (length xs))%float.

Definition RefNumerics : Numerics :=
  {| np_max := ref_max; np_sum := ref_sum; np_median := ref_median; rms := ref_rms |}.

(** ** Concrete catalogs *)

Definition unmasked (n : string) (d : coldata) : column :=
  mkColumn n d (repeat false (dlen d)).

(** The object a finished call leaves behind. *)
Definition object_after {A} (o : outcome A) : MasterCatalog :=
  match o with
  | Ok _ self => self
  | Raise _ self => self
  end.

(** Two sources, the first one rejected. *)
Definition two_sources : table :=
  [unmasked "_name" (DStr ["a"; "b"]);
   unmasked "_index" (DInt [0; 1]%Z);
   unmasked "rejected" (DInt [1; 0]%Z)].

Definition two_sources_catalog : MasterCatalog :=
  object_after (MasterCatalog_init [] (Some two_sources)).

(** The same object after a caller has bound [accepted] to the rows with
    [rejected == 0]. *)
Definition two_sources_with_accepted : MasterCatalog :=
  mkMasterCatalog (catalog two_sources_catalog) (nonrejected two_sources_catalog)
    (nonrejected two_sources_catalog) (radiosources two_sources_catalog).

Definition ellipse : aperture := mkAperture "ellipse".
Definition annulus : aperture := mkAperture "annulus".

Definition one_source : table :=
  [unmasked "_name" (DStr ["a"]);
   unmasked "_index" (DInt [0]%Z);
   unmasked "rejected" (DInt [0]%Z)].

(** A frequency object whose extraction gives the same pixel sets [pix]
    whatever the aperture and the table. *)
Definition fixed_source (fid : string) (freq beam : float) (pix : list pixels)
  : RadioSource :=
  mkRadioSource fid freq beam (fun _ _ => pix).

(** A catalog over table [t] with the frequency objects [objs] registered. *)
Definition catalog_with (t : table) (objs : list RadioSource) : MasterCatalog :=
  object_after (MasterCatalog_init (map ObjRadioSource objs) (Some t)).

(** One source whose aperture holds a single finite pixel. *)
Definition single_pixel_catalog : MasterCatalog :=
  catalog_with one_source [fixed_source "b3" 93 2 [PScalar 1]].

(** One source whose aperture selects no pixel at all. *)
Definition empty_aperture_catalog : MasterCatalog :=
  catalog_with one_source [fixed_source "b3" 93 2 [PArray []]].



(** One source with three pixels in its aperture. *)
Definition three_pixel_catalog : MasterCatalog :=
  catalog_with one_source [fixed_source "b3" 93 2 [PArray [1; 2; 3]%float]].

(** One source with a NaN position and a NaN pixel in its aperture. *)
Definition nan_cell_catalog : MasterCatalog :=
  catalog_with (one_source ++ [unmasked "x_cen" (DFloat [fnan])])
    [fixed_source "b3" 93 2 [PArray [1; fnan]%float]].

(** A table of new sources that lacks [_index] and [rejected] and brings a
    column of its own. *)
Definition new_sources : table :=
  [unmasked "_name" (DStr ["c"]);
   unmasked "flux" (DFloat [1.5]%float)].

(** New sources with the columns of [two_sources]. *)
Definition more_sources : table :=
  [unmasked "_name" (DStr ["c"; "d"; "e"]);
   unmasked "_index" (DInt [0; 1; 2]%Z);
   unmasked "rejected" (DInt [0; 0; 1]%Z)].

(** New sources whose [_name] column holds numbers. *)
Definition numbered_sources : table :=
  [unmasked "_name" (DInt [7]%Z)].

(** A namespace in which a caller has bound the two aperture names. *)
Definition bound_namespace : namespace :=
  mkNamespace None (Some ellipse) (Some annulus).

(** Two frequency objects over the two sources; both extract the pixels
    [3, 4, 5] for the second source, and [1, 2, 3] for the first. *)
Definition b3_source : RadioSource :=
  fixed_source "b3" 93 3 [PArray [1; 2; 3]%float; PArray [3; 4; 5]%float].

Definition b6_source : RadioSource :=
  fixed_source "b6" 226 1 [PArray [1; 2; 3]%float; PArray [3; 4; 5]%float].

Definition two_frequency_catalog : MasterCatalog :=
  catalog_with two_sources [b3_source; b6_source].

From Stdlib Require Import Sorted SpecFloat FloatAxioms.

(** ** Further notions *)

(** An argument [add_objects] can take in: a frequency object, or a
    [MasterCatalog] with no frequency object registered. *)
Definition importable (o : object) : bool :=
  match o with
  | ObjRadioSource _ => true
  | ObjMasterCatalog other =>
      match radiosources other with
      | [] => true
      | _ :: _ => false
      end
  end.

(** The frequency objects among the arguments of [add_objects]. *)
Fixpoint frequency_objects (args : list object) : list RadioSource :=
  match args with
  | [] => []
  | ObjRadioSource rs :: args' => rs :: frequency_objects args'
  | ObjMasterCatalog _ :: args' => frequency_objects args'
  end.

(** [d[k]] on an insertion-ordered dictionary. *)
Fixpoint dict_get {V} (k : string) (d : list (string * V)) : option V :=
  match d with
  | [] => None
  | (k', v) :: d' => if String.eqb k' k then Some v else dict_get k d'
  end.

(** Every entry sits under the key [add_objects] gives its object. *)
Definition keyed_by_freq_id (d : list (string * RadioSource)) : Prop :=
  Forall (fun kv => fst kv = obj_prefix +++ freq_id (snd kv)) d.

(** The rows of all the tables of a list. *)
Definition total_rows (l : list table) : nat :=
  fold_right (fun s n => nrows s + n) 0 l.

(** [n] is one of the five column names of a processed (frequency object,
    aperture) pair. *)
Definition produced (objs : list RadioSource) (args : list aperture)
    (n : string) : bool :=
  existsb (fun ap =>
             existsb (fun rs_obj =>
                        existsb (String.eqb n) (stat_names (freq_id rs_obj) ap))
               objs) args.

(** The key of a frequency object in [__dict__]. *)
Definition key_of (rs_obj : RadioSource) : string :=
  obj_prefix +++ freq_id rs_obj.

(** The registry of an object: every frequency object under its own key, no
    key twice. *)
Definition registry_ok (mc : MasterCatalog) : Prop :=
  keyed_by_freq_id (radiosources mc) /\ NoDup (map fst (radiosources mc)).

(** The registry after the frequency objects [l] have been stored in turn. *)
Definition register (l : list RadioSource) (d : list (string * RadioSource))
  : list (string * RadioSource) :=
  fold_left (fun d' rs_obj => dict_set (key_of rs_obj) rs_obj d') l d.

(** ** Further example data *)



(** The two-frequency catalog after the photometry of both apertures. *)
Definition measured_catalog : MasterCatalog :=
  object_after
    (photometer (N := RefNumerics) [ellipse; annulus] None two_frequency_catalog).

Definition measured_table : table :=
  match catalog measured_catalog with
  | Some t => t
  | None => []
  end.

(** The two sources with the lower frequency registered only. *)
Definition b3_only_catalog : MasterCatalog :=
  catalog_with two_sources [b3_source].

(** A table with its columns and no source. *)
Definition no_sources : table :=
  [unmasked "_name" (DStr []);
   unmasked "_index" (DInt []);
   unmasked "rejected" (DInt [])].

Definition no_sources_catalog : MasterCatalog :=
  catalog_with no_sources [fixed_source "b3" 93 2 []].

(** * Properties *)

Unset Implicit Arguments.

(** ** Strings and column names *)

Lemma list_ascii_of_string_app (a b : string) :
  list_ascii_of_string (a +++ b) = list_ascii_of_string a ++ list_ascii_of_string b.
Proof. induction a as [|x a IH]; simpl; [reflexivity | now rewrite IH]. Qed.



Lemma append_inv_head (a b c : string) : a +++ b = a +++ c -> b = c.
Proof.
  induction a as [|x a IH]; simpl; intros H; [exact H|].
  injection H as H. auto.
Qed.

Lemma rev_chars_app (p suf : string) :
  rev (list_ascii_of_string (p +++ suf))
  = rev (list_ascii_of_string suf) ++ rev (list_ascii_of_string p).
Proof. now rewrite list_ascii_of_string_app, rev_app_distr. Qed.

Lemma lprefix_app (a b : list ascii) : lprefix a (a ++ b) = true.
Proof.
  induction a as [|x a IH]; simpl; [reflexivity|].
  now rewrite Ascii.eqb_refl, IH.
Qed.

Lemma ends_with_app (p suf : string) : ends_with suf (p +++ suf) = true.
Proof. unfold ends_with. rewrite rev_chars_app. apply lprefix_app. Qed.


Lemma stat_names_In (fid : string) (ap : aperture) (n : string) :
  In n (stat_names fid ap) <->
  exists suf, In suf stat_suffixes /\ n = col_prefix fid ap +++ suf.
Proof.
  unfold stat_names. rewrite in_map_iff. split.
  - intros (suf & E & H). exists suf. auto.
  - intros (suf & H & E). exists suf. auto.
Qed.

Lemma stat_names_is_stat_name (fid : string) (ap : aperture) (n : string) :
  In n (stat_names fid ap) -> is_stat_name n = true.
Proof.
  intros H. apply stat_names_In in H. destruct H as (suf & Hs & ->).
  unfold is_stat_name. apply existsb_exists. exists suf. split; [exact Hs|].
  apply ends_with_app.
Qed.



(** The identifier columns are not photometry columns. *)
Lemma identifiers_not_stat_names :
  is_stat_name "_name" = false /\ is_stat_name "_index" = false
  /\ is_stat_name "rejected" = false.
Proof. repeat split; reflexivity. Qed.

(** ** Tables *)

Lemma mem_In (x : string) (l : list string) :
  existsb (String.eqb x) l = true <-> In x l.
Proof.
  rewrite existsb_exists. split.
  - intros (y & Hy & E). apply String.eqb_eq in E. now subst.
  - intros H. exists x. split; [exact H | apply String.eqb_refl].
Qed.

Lemma mem_not_In (x : string) (l : list string) :
  existsb (String.eqb x) l = false <-> ~ In x l.
Proof.
  rewrite <- mem_In. destruct (existsb _ l); split; intros H; congruence.
Qed.

Lemma getcol_Some (t : table) (n : string) (c : column) :
  getcol t n = Some c -> In c t /\ cname c = n.
Proof.
  unfold getcol. intros H. apply find_some in H. destruct H as [H E].
  apply String.eqb_eq in E. auto.
Qed.

Lemma getcol_None (t : table) (n : string) :
  getcol t n = None <-> ~ In n (colnames t).
Proof.
  unfold getcol, colnames. induction t as [|c t IH]; simpl.
  - tauto.
  - destruct (String.eqb_spec (cname c) n) as [E|E].
    + split; [discriminate | intros H; exfalso; apply H; now left].
    + rewrite IH. tauto.
Qed.

Lemma getcol_In (t : table) (n : string) :
  In n (colnames t) -> exists c, getcol t n = Some c.
Proof.
  intros H. destruct (getcol t n) as [c|] eqn:E; [now exists c|].
  apply getcol_None in E. contradiction.
Qed.

Lemma has_col_In (t : table) (n : string) :
  has_col t n = true <-> In n (colnames t).
Proof. apply mem_In. Qed.

Lemma has_col_getcol (t : table) (n : string) :
  has_col t n = match getcol t n with Some _ => true | None => false end.
Proof.
  destruct (getcol t n) as [c|] eqn:E.
  - apply has_col_In. apply getcol_Some in E. destruct E as [Hin <-].
    unfold colnames. now apply in_map.
  - apply getcol_None in E. destruct (has_col t n) eqn:H; [|reflexivity].
    apply has_col_In in H. contradiction.
Qed.

Lemma getcol_app (t u : table) (n : string) :
  getcol (t ++ u) n
  = match getcol t n with Some c => Some c | None => getcol u n end.
Proof.
  unfold getcol. induction t as [|c t IH]; simpl; [reflexivity|].
  destruct (String.eqb (cname c) n); [reflexivity | exact IH].
Qed.

Lemma getcol_NoDup_In (t : table) (c : column) :
  NoDup (colnames t) -> In c t -> getcol t (cname c) = Some c.
Proof.
  unfold getcol, colnames. induction t as [|d t IH]; simpl; [tauto|].
  intros Hnd [->|Hin].
  - now rewrite String.eqb_refl.
  - inversion Hnd as [|? ? Hnot Hnd']; subst.
    destruct (String.eqb_spec (cname d) (cname c)) as [E|E].
    + exfalso. apply Hnot. rewrite E. now apply in_map.
    + auto.
Qed.

Lemma remask_col_name (c : column) : cname (remask_col c) = cname c.
Proof. unfold remask_col. destruct (cdata c); reflexivity. Qed.

Lemma remask_col_data (c : column) : cdata (remask_col c) = cdata c.
Proof. unfold remask_col. destruct (cdata c) eqn:E; simpl; auto. Qed.

Lemma remask_col_len (c : column) : clen (remask_col c) = clen c.
Proof. unfold clen. now rewrite remask_col_data. Qed.

Lemma colnames_remask (t : table) : colnames (remask t) = colnames t.
Proof.
  unfold colnames, remask. rewrite map_map.
  apply map_ext. apply remask_col_name.
Qed.

Lemma getcol_remask (t : table) (n : string) :
  getcol (remask t) n = option_map remask_col (getcol t n).
Proof.
  unfold getcol, remask. induction t as [|c t IH]; simpl; [reflexivity|].
  rewrite remask_col_name. destruct (String.eqb (cname c) n); [reflexivity | exact IH].
Qed.

Lemma getcol_without_other (names : list string) (t : table) (n : string) :
  ~ In n names -> getcol (without names t) n = getcol t n.
Proof.
  intros H. unfold getcol, without. induction t as [|c t IH]; simpl; [reflexivity|].
  destruct (String.eqb (cname c) n) eqn:E.
  - assert (Hc : existsb (String.eqb (cname c)) names = false).
    { apply mem_not_In. apply String.eqb_eq in E. now rewrite E. }
    rewrite Hc. simpl. now rewrite E.
  - destruct (negb _); simpl; [|exact IH]. now rewrite E.
Qed.


Lemma without_none_present (names : list string) (t : table) :
  (forall n, In n names -> ~ In n (colnames t)) -> without names t = t.
Proof.
  intros H. unfold without. induction t as [|c t IH]; simpl; [reflexivity|].
  assert (E : existsb (String.eqb (cname c)) names = false).
  { apply mem_not_In. intros Hin. apply (H _ Hin). now left. }
  rewrite E. simpl. f_equal. apply IH. intros n Hn Hin. apply (H _ Hn). now right.
Qed.

Lemma colnames_without (names : list string) (t : table) (n : string) :
  In n (colnames (without names t)) <-> In n (colnames t) /\ ~ In n names.
Proof.
  unfold colnames, without. rewrite !in_map_iff. split.
  - intros (c & E & Hc). apply filter_In in Hc. destruct Hc as [Hc Hn].
    apply negb_true_iff, mem_not_In in Hn. subst n. split; [now exists c | exact Hn].
  - intros [(c & E & Hc) Hn]. exists c. split; [exact E|].
    apply filter_In. split; [exact Hc|]. apply negb_true_iff, mem_not_In. now subst.
Qed.

Lemma nodupb_NoDup (l : list string) : nodupb l = true <-> NoDup l.
Proof.
  induction l as [|x l IH]; simpl.
  - split; [constructor | reflexivity].
  - rewrite andb_true_iff, negb_true_iff, mem_not_In, IH. split.
    + intros [H1 H2]. now constructor.
    + intros H. inversion H. auto.
Qed.

Lemma same_lengths_spec (t : table) :
  same_lengths t = true <-> forall c, In c t -> clen c = nrows t.
Proof.
  destruct t as [|c t]; simpl.
  - split; [intros _ c [] | reflexivity].
  - rewrite forallb_forall. split.
    + intros H d [<-|Hd]; [reflexivity|]. now apply Nat.eqb_eq, H.
    + intros H d Hd. apply Nat.eqb_eq, H. now right.
Qed.

Lemma same_lengths_remask (t : table) :
  same_lengths (remask t) = same_lengths t.
Proof.
  destruct t as [|c t]; simpl; [reflexivity|].
  rewrite remask_col_len.
  induction t as [|d t IH]; simpl; [reflexivity|].
  now rewrite remask_col_len, IH.
Qed.

(** ** The mask pass *)

Lemma mask_or_idem (m b : list bool) : mask_or (mask_or m b) b = mask_or m b.
Proof.
  revert b. induction m as [|x m IH]; intros [|y b]; simpl; try reflexivity.
  rewrite IH. now destruct x, y.
Qed.

Lemma remask_col_idem (c : column) : remask_col (remask_col c) = remask_col c.
Proof.
  unfold remask_col. destruct (cdata c) eqn:E; simpl; rewrite ?E; try reflexivity.
  now rewrite mask_or_idem.
Qed.



(** ** One iteration of [photometer] *)

Section PhotometerStep.
Context {N : Numerics}.

Lemma NoDup_app_disjoint {A} (l1 l2 : list A) :
  NoDup (l1 ++ l2) -> forall a, In a l1 -> ~ In a l2.
Proof.
  induction l1 as [|x l1 IH]; simpl; intros H a Ha; [contradiction|].
  inversion H as [|? ? Hnot Hnd]; subst. destruct Ha as [->|Ha].
  - intros Hin. apply Hnot. apply in_or_app. now right.
  - now apply IH.
Qed.

Lemma merge_columns_ok (names : list string) (cols : list column)
    (npix : option column) (mc mc' : MasterCatalog) (u : unit) (t : table) :
  catalog mc = Some t ->
  merge_columns names cols npix mc = Ok u mc' ->
  exists c t1,
    npix = Some c
    /\ (t1 = without names t \/ (t1 = t /\ forallb (has_col t) names = false))
    /\ same_lengths (t1 ++ cols ++ [c]) = true
    /\ nodupb (colnames (t1 ++ cols ++ [c])) = true
    /\ mc' = set_catalog (remask (t1 ++ cols ++ [c])) mc.
Proof.
  intros Hcat H.
  unfold merge_columns, bind, try_except, self_catalog, lift, update_catalog,
    remove_columns, ret, raise in H.
  rewrite Hcat in H.
  destruct (forallb (has_col t) names) eqn:Hall; simpl in H.
  - destruct npix as [c|]; [|discriminate].
    unfold add_columns in H.
    destruct (same_lengths (without names t ++ cols ++ [c])) eqn:Hl; simpl in H;
      [|discriminate].
    destruct (nodupb (colnames (without names t ++ cols ++ [c]))) eqn:Hd; simpl in H;
      [|discriminate].
    inversion H; subst. exists c, (without names t). auto 10.
  - rewrite Hcat in H.
    destruct npix as [c|]; [|discriminate].
    unfold add_columns in H.
    destruct (same_lengths (t ++ cols ++ [c])) eqn:Hl; simpl in H; [|discriminate].
    destruct (nodupb (colnames (t ++ cols ++ [c]))) eqn:Hd; simpl in H; [|discriminate].
    inversion H; subst. exists c, t. auto 10.
Qed.


Lemma mapR_length {A B} (f : A -> result B) (l : list A) (l' : list B) :
  mapR f l = Success l' -> length l' = length l.
Proof.
  revert l'. induction l as [|a l IH]; simpl; intros l' H.
  - now inversion H.
  - destruct (f a); simpl in H; [|discriminate].
    destruct (mapR f l); simpl in H; [|discriminate].
    inversion H; subst. simpl. f_equal. now apply IH.
Qed.

Lemma clen_MaskedColumn (xs : list float) (n : string) :
  clen (MaskedColumn xs n) = length xs.
Proof. reflexivity. Qed.

Lemma stat_columns_nonempty (rs : RadioSource) (ap : aperture) (p : pixels)
    (pix : list pixels) (prev : option column) (cols : list column)
    (npix : option column) :
  stat_columns rs ap (p :: pix) prev = Success (cols, npix) ->
  exists c,
    npix = Some c
    /\ five_columns rs ap (p :: pix) = Success (cols ++ [c])
    /\ map cname (cols ++ [c]) = stat_names (freq_id rs) ap
    /\ Forall (fun d => clen d = length (p :: pix)) (cols ++ [c]).
Proof.
  unfold five_columns, stat_columns. intros H.
  destruct (mapR peak_of (p :: pix)) as [peak_data|] eqn:Ep; [|discriminate].
  cbn [rbind] in H |- *.
  destruct (mapR npix_of (p :: pix)) as [npix_data|] eqn:En; [|discriminate].
  cbn [rbind] in H |- *.
  inversion H; subst. eexists. split; [reflexivity|].
  split; [reflexivity|]. split; [reflexivity|].
  apply mapR_length in Ep, En.
  repeat constructor; rewrite clen_MaskedColumn; simpl; rewrite ?length_map;
    simpl in *; congruence.
Qed.

Lemma stat_columns_empty (rs : RadioSource) (ap : aperture) (prev : option column)
    (cols : list column) (npix : option column) :
  stat_columns rs ap [] prev = Success (cols, npix) ->
  npix = prev /\ exists d, In d cols /\ clen d = 0.
Proof.
  unfold stat_columns. simpl. intros H. inversion H; subst.
  split; [reflexivity|]. eexists. split; [left; reflexivity | reflexivity].
Qed.

Lemma five_columns_names (rs : RadioSource) (ap : aperture) (pix : list pixels)
    (cols : list column) :
  five_columns rs ap pix = Success cols ->
  colnames cols = stat_names (freq_id rs) ap
  /\ Forall (fun d => clen d = length pix) cols /\ pix <> [].
Proof.
  intros H. destruct pix as [|p pix].
  - unfold five_columns in H. simpl in H. discriminate.
  - unfold five_columns in H.
    destruct (stat_columns rs ap (p :: pix) None) as [[cols' npix]|] eqn:E;
      [|discriminate].
    apply stat_columns_nonempty in E. destruct E as (c & -> & E5 & Hn & Hl).
    simpl in H. inversion H; subst. repeat split; auto. discriminate.
Qed.

Lemma photometer_rs_ok (ap : aperture) (rs : RadioSource) (prev : option column)
    (mc mc' : MasterCatalog) (v : option column) (t : table) :
  npix_var_ok prev -> catalog mc = Some t ->
  photometer_rs ap None rs prev mc = Ok v mc' ->
  exists cols,
    five_columns rs ap (get_pixels rs ap t) = Success cols
    /\ mc' = set_catalog (merged (stat_names (freq_id rs) ap) cols t) mc
    /\ npix_var_ok v
    /\ same_lengths (without (stat_names (freq_id rs) ap) t ++ cols) = true
    /\ NoDup (colnames (without (stat_names (freq_id rs) ap) t ++ cols)).
Proof.
  intros Hprev Hcat H.
  unfold photometer_rs, bind, self_catalog in H. rewrite Hcat in H.
  unfold lift at 1 in H.
  destruct (stat_columns rs ap (get_pixels rs ap t) prev) as [[cols npix]|e] eqn:Es;
    [|discriminate].
  simpl in H.
  destruct (merge_columns (stat_names (freq_id rs) ap) cols npix mc) as [u mc1|]
    eqn:Em; [|discriminate].
  unfold ret in H. inversion H; subst v mc'. clear H.
  apply (merge_columns_ok _ _ _ _ _ _ _ Hcat) in Em.
  destruct Em as (c & t1 & -> & Ht1 & Hl & Hd & ->).
  destruct (get_pixels rs ap t) as [|p pix] eqn:Epix.
  - (* no pixel set: the lengths cannot agree *)
    exfalso. apply stat_columns_empty in Es. destruct Es as [<- (d & Hd0 & Hz)].
    simpl in Hprev.
    rewrite same_lengths_spec in Hl.
    assert (H1 : clen d = nrows (t1 ++ cols ++ [c])).
    { apply Hl. apply in_or_app. right. apply in_or_app. now left. }
    assert (H2 : clen c = nrows (t1 ++ cols ++ [c])).
    { apply Hl. apply in_or_app. right. apply in_or_app. right. now left. }
    lia.
  - apply stat_columns_nonempty in Es.
    destruct Es as (c' & Hc & E5 & Hn & Hlen). inversion Hc; subst c'. clear Hc.
    exists (cols ++ [c]). split; [exact E5|].
    assert (Hw : t1 = without (stat_names (freq_id rs) ap) t).
    { destruct Ht1 as [->|[-> _]]; [reflexivity|].
      symmetry. apply without_none_present. intros n Hn' Hin.
      apply nodupb_NoDup in Hd. unfold colnames in Hd. rewrite map_app in Hd.
      apply (NoDup_app_disjoint _ _ Hd n Hin). fold (colnames (cols ++ [c])).
      unfold colnames. rewrite Hn. exact Hn'. }
    subst t1. split; [reflexivity|]. split.
    + simpl. apply Forall_app in Hlen. destruct Hlen as [_ Hc].
      inversion Hc as [|? ? Hc0 ?]; subst. rewrite Hc0. simpl. lia.
    + split; [exact Hl|]. now apply nodupb_NoDup.
Qed.
End PhotometerStep.

(** ** The loops of [photometer] *)

Section PhotometerLoop.
Context {N : Numerics}.

Lemma loop_ok (ap : aperture) (l : list RadioSource) :
  forall (prev : option column) (mc mc' : MasterCatalog) (v : option column)
         (t : table),
    npix_var_ok prev -> catalog mc = Some t ->
    for_each_with l prev (photometer_rs ap None) mc = Ok v mc' ->
    exists t',
      catalog mc' = Some t' /\ same_attributes mc mc' /\ npix_var_ok v
      /\ steps ap l t t'.
Proof.
  induction l as [|rs l IH]; intros prev mc mc' v t Hprev Hcat H.
  - simpl in H. unfold ret in H. inversion H; subst.
    exists t. repeat split; auto. constructor.
  - simpl in H. unfold bind in H.
    destruct (photometer_rs ap None rs prev mc) as [v1 mc1|] eqn:E1; [|discriminate].
    destruct (photometer_rs_ok _ _ _ _ _ _ _ Hprev Hcat E1)
      as (cols & E5 & -> & Hv1 & Hl & Hd).
    assert (Hc1 : catalog (set_catalog (merged (stat_names (freq_id rs) ap) cols t) mc)
                  = Some (merged (stat_names (freq_id rs) ap) cols t)) by reflexivity.
    destruct (IH _ _ _ _ _ Hv1 Hc1 H) as (t' & Hc' & Ha & Hv & Hs).
    exists t'. split; [exact Hc'|]. split.
    + destruct Ha as (H1 & H2 & H3). repeat split; assumption.
    + split; [exact Hv|]. econstructor; eauto.
Qed.

Lemma photometer_aperture_ok (ap : aperture) (prev : option column)
    (mc mc' : MasterCatalog) (v : option column) (t : table) :
  npix_var_ok prev -> catalog mc = Some t ->
  photometer_aperture None ap prev mc = Ok v mc' ->
  exists t',
    catalog mc' = Some t' /\ same_attributes mc mc' /\ npix_var_ok v
    /\ steps ap (rs_objects_of mc) t t'.
Proof.
  intros Hprev Hcat H.
  unfold photometer_aperture, bind, self_catalog, ret in H. rewrite Hcat in H.
  now apply loop_ok with (prev := prev) (mc := mc).
Qed.

End PhotometerLoop.

(** ** What a merge keeps *)

Lemma geometry_app (a b : table) : geometry (a ++ b) = geometry a ++ geometry b.
Proof. unfold geometry. now rewrite filter_app, map_app. Qed.

Lemma geometry_remask (t : table) : geometry (remask t) = geometry t.
Proof.
  unfold geometry, remask. induction t as [|c t IH]; simpl; [reflexivity|].
  rewrite remask_col_name. destruct (is_stat_name (cname c)); simpl; [exact IH|].
  now rewrite remask_col_name, remask_col_data, IH.
Qed.

Lemma geometry_stat_columns (cols : list column) :
  (forall n, In n (colnames cols) -> is_stat_name n = true) -> geometry cols = [].
Proof.
  unfold geometry. induction cols as [|c cols IH]; simpl; intros H; [reflexivity|].
  rewrite (H (cname c)) by now left. simpl. apply IH. intros n Hn. apply H. now right.
Qed.

Lemma geometry_without (names : list string) (t : table) :
  (forall n, In n names -> is_stat_name n = true) ->
  geometry (without names t) = geometry t.
Proof.
  intros H. unfold geometry, without. induction t as [|c t IH]; simpl; [reflexivity|].
  destruct (existsb (String.eqb (cname c)) names) eqn:E; simpl.
  - apply mem_In in E. rewrite (H _ E). simpl. exact IH.
  - destruct (is_stat_name (cname c)); simpl; [exact IH | now rewrite IH].
Qed.

Lemma geometry_merged (names : list string) (cols : list column) (t : table) :
  (forall n, In n names -> is_stat_name n = true) ->
  colnames cols = names ->
  geometry (merged names cols t) = geometry t.
Proof.
  intros H E. unfold merged.
  rewrite geometry_remask, geometry_app, geometry_without by exact H.
  rewrite (geometry_stat_columns cols); [apply app_nil_r|]. now rewrite E.
Qed.

(** A column that is not a photometry column is read off the geometry. *)
Lemma geometry_getcol (t : table) (n : string) :
  is_stat_name n = false ->
  option_map cdata (getcol t n)
  = option_map snd (find (fun p => String.eqb (fst p) n) (geometry t)).
Proof.
  intros H. unfold geometry, getcol. induction t as [|c t IH]; simpl; [reflexivity|].
  destruct (String.eqb (cname c) n) eqn:E.
  - assert (Hs : is_stat_name (cname c) = false).
    { apply String.eqb_eq in E. now rewrite E. }
    rewrite Hs. simpl. now rewrite E.
  - destruct (is_stat_name (cname c)); simpl; [exact IH|]. now rewrite E.
Qed.


Lemma getcol_merged_other (names : list string) (cols : list column) (t : table)
    (n : string) :
  colnames cols = names -> ~ In n names ->
  getcol (merged names cols t) n = option_map remask_col (getcol t n).
Proof.
  intros E Hn. unfold merged.
  rewrite getcol_remask, getcol_app, getcol_without_other by exact Hn.
  destruct (getcol t n) as [c|]; [reflexivity|].
  assert (H : getcol cols n = None) by (apply getcol_None; now rewrite E).
  now rewrite H.
Qed.

Section MergeFacts.
Context {N : Numerics}.

(** A column outside the five names is kept, up to its mask. *)
Lemma steps_frame (ap : aperture) (l : list RadioSource) (t t' : table) :
  steps ap l t t' ->
  forall n, (forall rs, In rs l -> ~ In n (stat_names (freq_id rs) ap)) ->
    getcol t' n = getcol t n \/ getcol t' n = option_map remask_col (getcol t n).
Proof.
  induction 1 as [t|rs l t t' cols E5 Hl Hd Hs IH]; intros n Hn; [now left|].
  right.
  assert (Hnames : colnames cols = stat_names (freq_id rs) ap)
    by (now apply five_columns_names in E5).
  assert (E : getcol (merged (stat_names (freq_id rs) ap) cols t) n
              = option_map remask_col (getcol t n)).
  { apply getcol_merged_other; [exact Hnames|]. apply Hn. now left. }
  destruct (IH n) as [H|H].
  - intros rs' Hrs'. apply Hn. now right.
  - now rewrite H.
  - rewrite H, E. destruct (getcol t n); simpl; [|reflexivity].
    now rewrite remask_col_idem.
Qed.

Lemma steps_geometry (ap : aperture) (l : list RadioSource) (t t' : table) :
  steps ap l t t' -> geometry t' = geometry t.
Proof.
  induction 1 as [t|rs l t t' cols E5 Hl Hd Hs IH]; [reflexivity|].
  rewrite IH. apply geometry_merged.
  - intros n. apply stat_names_is_stat_name.
  - now apply five_columns_names in E5.
Qed.
End MergeFacts.

(** ** Invariants of the loop *)
Section StepInvariants.
Context {N : Numerics}.

Lemma five_columns_shape (rs : RadioSource) (ap : aperture) (pix : list pixels)
    (cols : list column) :
  five_columns rs ap pix = Success cols ->
  exists peak_data npix_data,
    mapR peak_of pix = Success peak_data
    /\ mapR npix_of pix = Success npix_data
    /\ cols = [MaskedColumn peak_data (stat_name rs ap "_peak");
               MaskedColumn (map (sum_of (ppbeam rs)) pix) (stat_name rs ap "_sum");
               MaskedColumn (map rms_of pix) (stat_name rs ap "_rms");
               MaskedColumn (map median_of pix) (stat_name rs ap "_median");
               MaskedColumn npix_data (stat_name rs ap "_npix")].
Proof.
  unfold five_columns, stat_columns. intros H.
  destruct (mapR peak_of pix) as [peak_data|] eqn:Ep; [|discriminate].
  cbn [rbind] in H.
  destruct (mapR npix_of pix) as [npix_data|] eqn:En; [|discriminate].
  cbn [rbind] in H. destruct pix as [|p pix]; [discriminate|].
  cbn [snd fst app] in H. inversion H. exists peak_data, npix_data. auto.
Qed.

Lemma MaskedColumn_mask (xs : list float) (n : string) :
  length (cmask (MaskedColumn xs n)) = clen (MaskedColumn xs n).
Proof. unfold MaskedColumn, clen. simpl. apply repeat_length. Qed.

Lemma five_columns_masks (rs : RadioSource) (ap : aperture) (pix : list pixels)
    (cols : list column) :
  five_columns rs ap pix = Success cols -> masks_cover cols.
Proof.
  intros H. apply five_columns_shape in H.
  destruct H as (pd & nd & _ & _ & ->).
  repeat constructor; apply MaskedColumn_mask.
Qed.

Lemma mask_or_length (m b : list bool) : length (mask_or m b) = length m.
Proof.
  revert b. induction m as [|x m IH]; intros [|y b]; simpl; auto.
Qed.

Lemma remask_col_mask_length (c : column) :
  length (cmask (remask_col c)) = length (cmask c).
Proof.
  unfold remask_col. destruct (cdata c); simpl; auto. apply mask_or_length.
Qed.

Lemma masks_cover_remask (t : table) : masks_cover t -> masks_cover (remask t).
Proof.
  unfold masks_cover, remask. intros H. apply Forall_map.
  eapply Forall_impl; [|exact H]. intros c Hc. simpl.
  now rewrite remask_col_mask_length, remask_col_len.
Qed.

Lemma masks_cover_without (names : list string) (t : table) :
  masks_cover t -> masks_cover (without names t).
Proof.
  unfold masks_cover, without. intros H. rewrite Forall_forall in *.
  intros c Hc. apply filter_In in Hc. now apply H.
Qed.

Lemma steps_masks_cover (ap : aperture) (l : list RadioSource) (t t' : table) :
  steps ap l t t' -> masks_cover t -> masks_cover t'.
Proof.
  induction 1 as [t|rs l t t' cols E5 Hl Hd Hs IH]; intros H; [exact H|].
  apply IH. unfold merged. apply masks_cover_remask.
  apply Forall_app. split.
  - now apply masks_cover_without.
  - eapply five_columns_masks; eauto.
Qed.

Lemma steps_NoDup (ap : aperture) (l : list RadioSource) (t t' : table) :
  steps ap l t t' -> NoDup (colnames t) -> NoDup (colnames t').
Proof.
  induction 1 as [t|rs l t t' cols E5 Hl Hd Hs IH]; intros H; [exact H|].
  apply IH. unfold merged. now rewrite colnames_remask.
Qed.

Lemma steps_same_lengths (ap : aperture) (l : list RadioSource) (t t' : table) :
  steps ap l t t' -> same_lengths t = true -> same_lengths t' = true.
Proof.
  induction 1 as [t|rs l t t' cols E5 Hl Hd Hs IH]; intros H; [exact H|].
  apply IH. unfold merged. now rewrite same_lengths_remask.
Qed.

Lemma same_lengths_getcol (t : table) (n : string) (c : column) :
  same_lengths t = true -> getcol t n = Some c -> clen c = nrows t.
Proof.
  intros H E. apply getcol_Some in E. destruct E as [Hin _].
  rewrite same_lengths_spec in H. now apply H.
Qed.

Lemma steps_data (ap : aperture) (l : list RadioSource) (t t' : table) :
  steps ap l t t' ->
  forall n, (forall rs, In rs l -> ~ In n (stat_names (freq_id rs) ap)) ->
    option_map cdata (getcol t' n) = option_map cdata (getcol t n).
Proof.
  intros Hs n Hn. destruct (steps_frame _ _ _ _ Hs n Hn) as [E|E]; rewrite E; [reflexivity|].
  destruct (getcol t n); simpl; [|reflexivity]. now rewrite remask_col_data.
Qed.

Lemma not_stat_name_not_In (fid : string) (ap : aperture) (n : string) :
  is_stat_name n = false -> ~ In n (stat_names fid ap).
Proof.
  intros H Hin. apply stat_names_is_stat_name in Hin. congruence.
Qed.


End StepInvariants.

(** ** Running the loop on its own result *)
Section SecondRun.
Context {N : Numerics}.






End SecondRun.

Section OneAperture.
Context {N : Numerics}.



Lemma same_attributes_objects (a b : MasterCatalog) :
  same_attributes a b -> rs_objects_of b = rs_objects_of a.
Proof. intros (_ & _ & H). unfold rs_objects_of. now rewrite H. Qed.
End OneAperture.

(** ** All apertures *)
Section AllApertures.
Context {N : Numerics}.

Lemma apertures_ok (args : list aperture) :
  forall (prev : option column) (mc mc' : MasterCatalog) (v : option column)
         (t : table),
    npix_var_ok prev -> catalog mc = Some t ->
    for_each_with args prev (photometer_aperture None) mc = Ok v mc' ->
    exists t',
      catalog mc' = Some t' /\ same_attributes mc mc'
      /\ runs (rs_objects_of mc) args t t'.
Proof.
  induction args as [|ap args IH]; intros prev mc mc' v t Hprev Hcat H.
  - simpl in H. unfold ret in H. inversion H; subst.
    exists t. repeat split; auto. constructor.
  - simpl in H. unfold bind in H.
    destruct (photometer_aperture None ap prev mc) as [v1 mc1|] eqn:E1; [|discriminate].
    destruct (photometer_aperture_ok _ _ _ _ _ _ Hprev Hcat E1)
      as (t1 & Hc1 & Ha1 & Hv1 & Hs).
    destruct (IH _ _ _ _ _ Hv1 Hc1 H) as (t' & Hc' & Ha' & Hr).
    exists t'. split; [exact Hc'|]. split.
    + destruct Ha1 as (A1 & A2 & A3), Ha' as (B1 & B2 & B3).
      repeat split; congruence.
    + econstructor; [exact Hs|].
      now rewrite <- (same_attributes_objects _ _ Ha1).
Qed.

Lemma photometer_ok (args : list aperture) (mc mc' : MasterCatalog) (t : table) :
  catalog mc = Some t ->
  photometer args None mc = Ok tt mc' ->
  exists t',
    catalog mc' = Some t' /\ same_attributes mc mc'
    /\ runs (rs_objects_of mc) args t t'.
Proof.
  intros Hcat H. unfold photometer, bind in H.
  destruct (for_each_with args None (photometer_aperture None) mc) as [v mc1|] eqn:E;
    [|discriminate].
  unfold ret in H. inversion H; subst mc1.
  exact (apertures_ok args None mc mc' v t I Hcat E).
Qed.

Lemma runs_frame (objs : list RadioSource) (args : list aperture) (t t' : table) :
  runs objs args t t' ->
  forall n, untouched objs args n ->
    getcol t' n = getcol t n \/ getcol t' n = option_map remask_col (getcol t n).
Proof.
  induction 1 as [t|ap args t t1 t' Hs Hr IH]; intros n Hn; [now left|].
  assert (H1 : getcol t1 n = getcol t n
               \/ getcol t1 n = option_map remask_col (getcol t n)).
  { apply (steps_frame _ _ _ _ Hs). intros rs Hrs. apply Hn; [exact Hrs | now left]. }
  assert (H2 : getcol t' n = getcol t1 n
               \/ getcol t' n = option_map remask_col (getcol t1 n)).
  { apply IH. intros rs ap' Hrs Hap. apply Hn; [exact Hrs | now right]. }
  destruct H1 as [H1|H1], H2 as [H2|H2]; rewrite H2, H1; auto.
  right. destruct (getcol t n); simpl; [|reflexivity]. now rewrite remask_col_idem.
Qed.

Lemma runs_data (objs : list RadioSource) (args : list aperture) (t t' : table)
    (n : string) :
  runs objs args t t' -> untouched objs args n ->
  option_map cdata (getcol t' n) = option_map cdata (getcol t n).
Proof.
  intros Hr Hn. destruct (runs_frame _ _ _ _ Hr n Hn) as [E|E]; rewrite E; [reflexivity|].
  destruct (getcol t n); simpl; [|reflexivity]. now rewrite remask_col_data.
Qed.

Lemma runs_same_lengths (objs : list RadioSource) (args : list aperture)
    (t t' : table) :
  runs objs args t t' -> same_lengths t = true -> same_lengths t' = true.
Proof.
  induction 1 as [t|ap args t t1 t' Hs Hr IH]; intros H; [exact H|].
  apply IH. exact (steps_same_lengths _ _ _ _ Hs H).
Qed.

Lemma runs_NoDup (objs : list RadioSource) (args : list aperture) (t t' : table) :
  runs objs args t t' -> NoDup (colnames t) -> NoDup (colnames t').
Proof.
  induction 1 as [t|ap args t t1 t' Hs Hr IH]; intros H; [exact H|].
  apply IH. exact (steps_NoDup _ _ _ _ Hs H).
Qed.

Lemma runs_masks_cover (objs : list RadioSource) (args : list aperture)
    (t t' : table) :
  runs objs args t t' -> masks_cover t -> masks_cover t'.
Proof.
  induction 1 as [t|ap args t t1 t' Hs Hr IH]; intros H; [exact H|].
  apply IH. exact (steps_masks_cover _ _ _ _ Hs H).
Qed.

Lemma runs_nrows (objs : list RadioSource) (args : list aperture) (t t' : table)
    (n : string) :
  runs objs args t t' -> same_lengths t = true ->
  untouched objs args n -> In n (colnames t) ->
  nrows t' = nrows t.
Proof.
  intros Hr Hl Hn Hin.
  destruct (getcol_In _ _ Hin) as [c Hc].
  pose proof (runs_data _ _ _ _ n Hr Hn) as E.
  rewrite Hc in E. destruct (getcol t' n) as [c'|] eqn:Hc'; [|discriminate].
  simpl in E. inversion E as [E'].
  rewrite <- (same_lengths_getcol _ _ _ Hl Hc).
  rewrite <- (same_lengths_getcol _ _ _ (runs_same_lengths _ _ _ _ Hr Hl) Hc').
  unfold clen. now rewrite E'.
Qed.

Lemma not_stat_name_untouched (objs : list RadioSource) (args : list aperture)
    (n : string) :
  is_stat_name n = false -> untouched objs args n.
Proof. intros H rs ap _ _. now apply not_stat_name_not_In. Qed.

Lemma wf_table_parts (t : table) :
  wf_table t -> NoDup (colnames t) /\ same_lengths t = true /\ masks_cover t.
Proof.
  intros [Hnd Hwf]. rewrite Forall_forall in Hwf. split; [exact Hnd|]. split.
  - apply same_lengths_spec. intros c Hc. now apply Hwf.
  - apply Forall_forall. intros c Hc. destruct (Hwf c Hc) as [H1 H2]. congruence.
Qed.




End AllApertures.

(** ** Cells *)
Lemma mask_or_all_false {A} (f : A -> bool) (m : list bool) (xs : list A) :
  existsb f xs = false -> mask_or m (map f xs) = m.
Proof.
  revert xs. induction m as [|x m IH]; intros [|y xs] H; simpl in *; try reflexivity.
  apply orb_false_iff in H. destruct H as [-> H]. rewrite orb_false_r.
  now rewrite IH.
Qed.

Lemma remask_col_no_nan (c : column) : has_nan c = false -> remask_col c = c.
Proof.
  unfold has_nan, remask_col. destruct c as [n d m]. simpl.
  destruct d as [xs|xs|xs]; intros H; try reflexivity.
  now rewrite mask_or_all_false.
Qed.




(** ** Stacking *)
Lemma add_sources_one (mc : MasterCatalog) (t s : table) :
  catalog mc = Some t ->
  add_sources [s] mc
  = match vstack t s with
    | Success st => Ok tt (set_catalog (set_range_col "_index" (nrows st) st) mc)
    | Failure e => Raise e mc
    end.
Proof.
  intros Hcat. unfold add_sources. simpl.
  unfold bind, self_catalog, lift, update_catalog, ret. rewrite Hcat.
  destruct (vstack t s); reflexivity.
Qed.

Lemma stack_left_name (s : table) (c x : column) :
  stack_left s c = Success x -> cname x = cname c.
Proof.
  unfold stack_left. destruct (getcol s (cname c)) as [c'|].
  - destruct (dapp (cdata c) (cdata c')); simpl; intros H; inversion H; reflexivity.
  - intros H. inversion H. reflexivity.
Qed.

Lemma dapp_mergeable (a b : coldata) :
  (exists d, dapp a b = Success d) <-> Bool.eqb (is_str a) (is_str b) = true.
Proof.
  destruct a, b; simpl; split; intros H; try reflexivity; try discriminate;
    try (eexists; reflexivity); destruct H as [d H]; discriminate.
Qed.

Lemma dapp_not_mergeable (a b : coldata) :
  Bool.eqb (is_str a) (is_str b) = false -> dapp a b = Failure TableMergeError.
Proof. destruct a, b; simpl; intros H; try reflexivity; discriminate. Qed.

Lemma mapR_stack_left_ok (s t : table) :
  mergeable t s = true ->
  exists left, mapR (stack_left s) t = Success left /\ colnames left = colnames t.
Proof.
  unfold mergeable. induction t as [|c t IH]; simpl; intros H.
  - exists []. auto.
  - apply andb_true_iff in H. destruct H as [Hc Ht].
    destruct (IH Ht) as (left & E & En). rewrite E.
    unfold stack_left at 1. destruct (getcol s (cname c)) as [c'|].
    + apply dapp_mergeable in Hc. destruct Hc as [d Hd]. rewrite Hd. simpl.
      eexists. split; [reflexivity|]. simpl. now rewrite En.
    + simpl. eexists. split; [reflexivity|]. simpl. now rewrite En.
Qed.

Lemma mapR_stack_left_fail (s t : table) :
  mergeable t s = false -> mapR (stack_left s) t = Failure TableMergeError.
Proof.
  unfold mergeable. induction t as [|c t IH]; simpl; intros H; [discriminate|].
  apply andb_false_iff in H. unfold stack_left at 1.
  destruct (getcol s (cname c)) as [c'|].
  - destruct (Bool.eqb (is_str (cdata c)) (is_str (cdata c'))) eqn:Eb.
    + destruct H as [H|H]; [discriminate|].
      apply dapp_mergeable in Eb. destruct Eb as [d Hd]. rewrite Hd. simpl.
      now rewrite (IH H).
    + now rewrite (dapp_not_mergeable _ _ Eb).
  - destruct H as [H|H]; [discriminate|]. simpl. now rewrite (IH H).
Qed.

Lemma vstack_fail (t s : table) :
  mergeable t s = false -> vstack t s = Failure TableMergeError.
Proof. intros H. unfold vstack. now rewrite (mapR_stack_left_fail _ _ H). Qed.

Lemma vstack_ok (t s : table) :
  mergeable t s = true ->
  exists left,
    mapR (stack_left s) t = Success left
    /\ colnames left = colnames t
    /\ vstack t s = Success (left ++ map (stack_right t) (only_right t s)).
Proof.
  intros H. destruct (mapR_stack_left_ok _ _ H) as (left & E & En).
  exists left. split; [exact E|]. split; [exact En|].
  unfold vstack. rewrite E. reflexivity.
Qed.

Lemma has_col_app (a b : table) (n : string) :
  has_col (a ++ b) n = has_col a n || has_col b n.
Proof. unfold has_col, colnames. now rewrite map_app, existsb_app. Qed.

Lemma has_col_names (a b : table) (n : string) :
  colnames a = colnames b -> has_col a n = has_col b n.
Proof. unfold has_col. now intros ->. Qed.

Lemma has_col_only_right (t s : table) (n : string) :
  has_col (map (stack_right t) (only_right t s)) n = negb (has_col t n) && has_col s n.
Proof.
  unfold only_right, has_col at 1 4, colnames.
  induction s as [|c s IH]; simpl; [now rewrite andb_false_r|].
  destruct (has_col t (cname c)) eqn:Ec; simpl.
  - rewrite IH. destruct (String.eqb_spec n (cname c)) as [->|Hne]; simpl.
    + rewrite Ec. reflexivity.
    + reflexivity.
  - rewrite IH. destruct (String.eqb_spec n (cname c)) as [->|Hne]; simpl.
    + rewrite Ec. reflexivity.
    + reflexivity.
Qed.

Lemma has_col_set_range_col (n : string) (k : nat) (t : table) (m : string) :
  has_col (set_range_col n k t) m = has_col t m || String.eqb m n.
Proof.
  unfold has_col, colnames. induction t as [|c t IH]; simpl.
  - now rewrite orb_false_r.
  - destruct (String.eqb_spec (cname c) n) as [E|E]; simpl.
    + rewrite E. destruct (String.eqb m n), (existsb (String.eqb m) (map cname t));
        reflexivity.
    + rewrite IH. now rewrite orb_assoc.
Qed.

Lemma getcol_set_range_col_same (n : string) (k : nat) (t : table) :
  getcol (set_range_col n k t) n = Some (range_col k n).
Proof.
  unfold getcol. induction t as [|c t IH]; simpl.
  - now rewrite String.eqb_refl.
  - destruct (String.eqb (cname c) n) eqn:E; simpl.
    + now rewrite String.eqb_refl.
    + now rewrite E.
Qed.

Lemma getcol_set_range_col_other (n : string) (k : nat) (t : table) (m : string) :
  m <> n -> getcol (set_range_col n k t) m = getcol t m.
Proof.
  intros Hne. unfold getcol. induction t as [|c t IH]; simpl.
  - destruct (String.eqb_spec n m); [congruence | reflexivity].
  - destruct (String.eqb (cname c) n) eqn:E; simpl.
    + apply String.eqb_eq in E. rewrite E.
      destruct (String.eqb_spec n m); [congruence | reflexivity].
    + destruct (String.eqb (cname c) m); [reflexivity | exact IH].
Qed.

Lemma clen_range_col (k : nat) (n : string) : clen (range_col k n) = k.
Proof. unfold clen, range_col. simpl. now rewrite length_map, length_seq. Qed.

Lemma nrows_set_range_col (n : string) (t : table) :
  nrows (set_range_col n (nrows t) t) = nrows t.
Proof.
  destruct t as [|c t]; simpl.
  - apply clen_range_col.
  - destruct (String.eqb (cname c) n); simpl; [apply clen_range_col | reflexivity].
Qed.
Lemma dlen_dapp (a b d : coldata) :
  dapp a b = Success d -> dlen d = dlen a + dlen b.
Proof.
  destruct a, b; simpl; intros H; inversion H; simpl;
    rewrite ?length_app, ?length_map; reflexivity.
Qed.

Lemma dlen_fill_right (a : coldata) (n : nat) :
  dlen (dapp_fill_right a n) = dlen a + n.
Proof. destruct a; simpl; now rewrite length_app, repeat_length. Qed.

Lemma dlen_fill_left (n : nat) (b : coldata) :
  dlen (dapp_fill_left n b) = n + dlen b.
Proof. destruct b; simpl; now rewrite length_app, repeat_length. Qed.

Lemma clen_stack_left (s : table) (c x : column) :
  same_lengths s = true ->
  stack_left s c = Success x -> clen x = clen c + nrows s.
Proof.
  intros Hs. unfold stack_left. destruct (getcol s (cname c)) as [c'|] eqn:Ec.
  - destruct (dapp (cdata c) (cdata c')) as [d|] eqn:Ed; simpl; intros H; inversion H.
    unfold clen. simpl. rewrite (dlen_dapp _ _ _ Ed).
    f_equal. exact (same_lengths_getcol _ _ _ Hs Ec).
  - intros H. inversion H. unfold clen. simpl. apply dlen_fill_right.
Qed.

Lemma only_right_nil (s : table) : only_right [] s = s.
Proof.
  unfold only_right. induction s as [|c s IH]; [reflexivity|].
  cbn. f_equal. exact IH.
Qed.

(** The stacked table has the rows of both. *)
Lemma nrows_vstack (t s st : table) :
  same_lengths s = true ->
  vstack t s = Success st -> nrows st = nrows t + nrows s.
Proof.
  intros Hs. unfold vstack. destruct t as [|c t].
  - simpl. intros H. inversion H. rewrite only_right_nil.
    destruct s as [|c' s]; simpl; [reflexivity|].
    unfold clen. simpl. apply dlen_fill_left.
  - simpl. destruct (stack_left s c) as [x|] eqn:Ex; simpl; [|discriminate].
    destruct (mapR (stack_left s) t) as [left|]; simpl; [|discriminate].
    intros H. inversion H. simpl. exact (clen_stack_left _ _ _ Hs Ex).
Qed.

Lemma getcol_stacked_left (s t left : table) (n : string) :
  mapR (stack_left s) t = Success left ->
  getcol left n
  = match getcol t n with
    | Some c => match stack_left s c with
                | Success x => Some x
                | Failure _ => None
                end
    | None => None
    end.
Proof.
  revert left. unfold getcol. induction t as [|c t IH]; simpl; intros left H.
  - inversion H. reflexivity.
  - destruct (stack_left s c) as [x|] eqn:Ex; simpl in H; [|discriminate].
    destruct (mapR (stack_left s) t) as [l'|]; simpl in H; [|discriminate].
    inversion H. simpl. rewrite (stack_left_name _ _ _ Ex).
    destruct (String.eqb (cname c) n); [now rewrite Ex | now apply IH].
Qed.

Lemma only_right_all_present (t s : table) :
  (forall c', In c' s -> has_col t (cname c') = true) -> only_right t s = [].
Proof.
  unfold only_right. induction s as [|c' s IH]; simpl; intros Hall; [reflexivity|].
  rewrite (Hall c') by now left. simpl. apply IH.
  intros c Hc. apply Hall. now right.
Qed.

Lemma compatible_only_right (t s : table) : compatible t s -> only_right t s = [].
Proof.
  intros H. apply only_right_all_present.
  intros c' Hc'. specialize (H (cname c')). rewrite has_col_getcol.
  destruct (getcol t (cname c')); [reflexivity|].
  destruct (getcol s (cname c')) eqn:E; [contradiction|].
  apply getcol_None in E. exfalso. apply E. unfold colnames. now apply in_map.
Qed.

Lemma dapp_same_kind (a b : coldata) :
  same_kind a b = true ->
  exists d,
    dapp a b = Success d
    /\ (forall i, i < dlen a -> dnth d i = dnth a i)
    /\ (forall i, dnth d (dlen a + i) = dnth b i).
Proof.
  destruct a as [x|x|x], b as [y|y|y]; simpl; intros H; try discriminate;
    eexists; (split; [reflexivity|]); simpl; split; intros i;
    try (intros Hi; now rewrite nth_error_app1);
    rewrite nth_error_app2 by lia; f_equal; f_equal; lia.
Qed.

Lemma nth_error_range (k i : nat) : i < k -> nth_error (seq 0 k) i = Some i.
Proof.
  intros H. rewrite (nth_error_nth' _ 0) by (now rewrite length_seq).
  now rewrite seq_nth.
Qed.

Lemma stored_range_col (t : table) (k i : nat) :
  getcol t "_index" = Some (range_col k "_index") -> i < k ->
  stored t "_index" i = Some (VInt (Z.of_nat i)) /\ masked t "_index" i = false.
Proof.
  intros H Hi. unfold stored, masked. rewrite H. simpl. split.
  - rewrite (map_nth_error _ _ _ (nth_error_range _ _ Hi)). reflexivity.
  - clear. revert i. induction k as [|k IH]; intros [|i]; simpl; auto.
Qed.

(** Under [compatible], the cells of the stacked table are those of [t]
    followed by those of [s]. *)
Lemma vstack_compatible_rows (t s st : table) (n : string) :
  compatible t s -> wf_table t ->
  vstack t s = Success st ->
  (forall i, i < nrows t ->
     stored st n i = stored t n i /\ masked st n i = masked t n i)
  /\ (forall i, stored st n (nrows t + i) = stored s n i
                /\ masked st n (nrows t + i) = masked s n i).
Proof.
  intros Hc Hwf H. unfold vstack in H.
  destruct (mapR (stack_left s) t) as [left|] eqn:El; simpl in H; [|discriminate].
  inversion H; subst st. clear H.
  rewrite (compatible_only_right _ _ Hc). simpl. rewrite app_nil_r.
  unfold stored, masked. rewrite (getcol_stacked_left _ _ _ n El).
  specialize (Hc n).
  destruct (getcol t n) as [c|] eqn:Ec.
  - destruct (getcol s n) as [c'|] eqn:Ec'; [|contradiction].
    destruct (getcol_Some _ _ _ Ec) as [Hin Hn].
    destruct Hwf as [_ Hwf]. rewrite Forall_forall in Hwf.
    destruct (Hwf c Hin) as [Hlen Hmask].
    unfold stack_left. rewrite Hn, Ec'.
    destruct (dapp_same_kind _ _ Hc) as (d & Ed & Hd1 & Hd2). rewrite Ed. simpl.
    unfold clen in Hlen. split.
    + intros i Hi. split; [apply Hd1; lia|]. apply app_nth1. lia.
    + intros i. rewrite <- Hlen at 1. split; [apply Hd2|].
      rewrite <- Hmask. rewrite app_nth2 by lia. f_equal. lia.
  - destruct (getcol s n); [contradiction|]. split; intros; split; reflexivity.
Qed.
Lemma same_kind_is_str (a b : coldata) :
  same_kind a b = true -> Bool.eqb (is_str a) (is_str b) = true.
Proof. destruct a, b; simpl; intros H; try reflexivity; discriminate. Qed.

Lemma compatible_mergeable (t s : table) :
  NoDup (colnames t) -> compatible t s -> mergeable t s = true.
Proof.
  intros Hnd Hc. unfold mergeable. apply forallb_forall. intros c Hin.
  specialize (Hc (cname c)). rewrite (getcol_NoDup_In _ _ Hnd Hin) in Hc.
  destruct (getcol s (cname c)); [now apply same_kind_is_str | reflexivity].
Qed.

Lemma dense_index_set (st : table) :
  dense_index (set_range_col "_index" (nrows st) st).
Proof.
  unfold dense_index. rewrite nrows_set_range_col. apply getcol_set_range_col_same.
Qed.

Lemma add_sources_step (s : table) (mc mc' : MasterCatalog) (u : unit) :
  (t <- self_catalog ;;
   stacked <- lift (vstack t s) ;;
   update_catalog stacked ;;
   update_catalog (set_range_col "_index" (nrows stacked) stacked)) mc = Ok u mc' ->
  exists t st,
    catalog mc = Some t /\ vstack t s = Success st
    /\ mc' = set_catalog (set_range_col "_index" (nrows st) st) mc.
Proof.
  unfold bind, self_catalog, lift, update_catalog.
  destruct (catalog mc) as [t|] eqn:Hcat; [|discriminate].
  destruct (vstack t s) as [st|] eqn:Ev; [|discriminate].
  intros H. inversion H. exists t, st. auto.
Qed.

Lemma add_sources_dense (args : list table) :
  forall mc mc',
    args <> [] \/ (exists t, catalog mc = Some t /\ dense_index t) ->
    add_sources args mc = Ok tt mc' ->
    exists t', catalog mc' = Some t' /\ dense_index t'.
Proof.
  unfold add_sources. induction args as [|s args IH]; intros mc mc' Hd H.
  - simpl in H. unfold ret in H. inversion H; subst.
    destruct Hd as [Hd|Hd]; [congruence | exact Hd].
  - simpl in H. unfold bind at 1 in H.
    match type of H with
    | match ?m mc with _ => _ end = _ => destruct (m mc) as [u mc1|] eqn:E1
    end; [|discriminate].
    apply add_sources_step in E1. destruct E1 as (t & st & Hcat & Ev & ->).
    apply (IH (set_catalog (set_range_col "_index" (nrows st) st) mc) mc');
      [|exact H].
    right. exists (set_range_col "_index" (nrows st) st). split; [reflexivity|].
    apply dense_index_set.
Qed.











Lemma getcol_take_rows (idx : list nat) (t : table) (n : string) :
  getcol (take_rows idx t) n = option_map (select_col idx) (getcol t n).
Proof.
  unfold getcol, take_rows. induction t as [|c t IH]; simpl; [reflexivity|].
  destruct (String.eqb (cname c) n); [reflexivity | exact IH].
Qed.



Section Recovery.
Context {N : Numerics}.


End Recovery.
(** ** [grab] *)

Example grab_single_name :
  grab module_namespace (NameOne "b") false two_sources_catalog
  = Ok [unmasked "_name" (DStr ["b"]);
        unmasked "_index" (DInt [1]%Z);
        unmasked "rejected" (DInt [0]%Z)] two_sources_catalog.
Proof. reflexivity. Qed.


Lemma zip_with_nth {A B} (f : A -> B -> bool) (l : list A) (m : list B) (i : nat)
    (a : A) (b : B) :
  nth_error l i = Some a -> nth_error m i = Some b ->
  nth i (zip_with f l m) false = f a b.
Proof.
  revert m i. induction l as [|x l IH]; intros [|y m] [|i] Ha Hb;
    simpl in *; try discriminate.
  - now inversion Ha; inversion Hb.
  - now apply IH.
Qed.

Lemma col_eq_str_selects (t : table) (c : column) (n : string) (i : nat)
    (x : string) :
  getcol t "_name" = Some c ->
  stored t "_name" i = Some (VStr x) -> i < length (cmask c) ->
  (nth i (col_eq_str c n) false = true <-> x = n /\ masked t "_name" i = false).
Proof.
  intros Hc Hs Hi. unfold stored, masked in *. rewrite Hc in *.
  unfold col_eq_str. destruct (cdata c) as [xs|xs|xs]; simpl in Hs;
    try (destruct (nth_error xs i); discriminate).
  destruct (nth_error xs i) as [y|] eqn:Ey; [|discriminate].
  inversion Hs; subst y.
  rewrite (zip_with_nth _ xs (cmask c) i x (nth i (cmask c) false) Ey
             (nth_error_nth' _ false Hi)).
  rewrite andb_true_iff, negb_true_iff, String.eqb_eq. tauto.
Qed.

(** [skip_rejects=True] on an object whose [accepted] was never bound. *)
Lemma grab_skip_rejects_unbound (G : namespace) (name : name_arg)
    (mc : MasterCatalog) :
  accepted mc = None -> grab G name true mc = Raise AttributeError mc.
Proof.
  intros H. unfold grab, bind, self_accepted. now rewrite H.
Qed.

(** A collection of names, the free name [names] unbound, a catalog with at
    least one row. *)
Lemma grab_collection_unbound (G : namespace) (l : list string)
    (mc : MasterCatalog) (t : table) (c : column) :
  catalog mc = Some t -> getcol t "_name" = Some c -> 0 < nrows t ->
  g_names G = None ->
  grab G (NameMany l) false mc = Raise NameError mc.
Proof.
  intros Hcat Hc Hn Hg. unfold grab, bind, self_catalog. rewrite Hcat.
  destruct (nrows t) as [|k]; [lia|]. cbn [seq grab_indices]. now rewrite Hc, Hg.
Qed.

(** C7.  [grab("a", skip_rejects=True)] on a catalog whose source "a" is
    rejected.  On the object as [__init__] builds it the call raises
    [AttributeError]: the method reads [self.accepted], the constructor binds
    [self.nonrejected].  With [accepted] bound by hand the call returns the
    rejected row all the same, because the single-name branch filters
    [self.catalog] and not the table picked by [skip_rejects]. *)
Theorem grab_skip_rejects_returns_rejected :
  grab module_namespace (NameOne "a") true two_sources_catalog
  = Raise AttributeError two_sources_catalog
  /\ grab module_namespace (NameOne "a") true two_sources_with_accepted
     = Ok [unmasked "_name" (DStr ["a"]);
           unmasked "_index" (DInt [0]%Z);
           unmasked "rejected" (DInt [1]%Z)] two_sources_with_accepted.
Proof. split; reflexivity. Qed.

(** C8.  [grab(["a"])]: the loop tests membership in the free name [names].
    The module binds no such name, so the first row raises [NameError]; when
    a caller has bound [names] (here to ["b"]) the rows are filtered by that
    binding and the supplied collection is ignored. *)
Theorem grab_collection_ignores_argument :
  grab module_namespace (NameMany ["a"]) false two_sources_catalog
  = Raise NameError two_sources_catalog
  /\ grab (mkNamespace (Some ["b"]) None None) (NameMany ["a"]) false
       two_sources_catalog
     = Ok [unmasked "_name" (DStr ["b"]);
           unmasked "_index" (DInt [1]%Z);
           unmasked "rejected" (DInt [0]%Z)] two_sources_catalog.
Proof. split; reflexivity. Qed.

(** ** The statistics of one pixel set *)

Section StatisticFacts.
Context {N : Numerics}.

Lemma sum_of_array (beam : float) (xs : list float) :
  sum_of beam (PArray xs) = (np_sum (positive_pixels xs) / beam)%float.
Proof. reflexivity. Qed.

Lemma sum_of_scalar_is_nan (beam x : float) :
  PrimFloat.is_nan (sum_of beam (PScalar x)) = true.
Proof. reflexivity. Qed.

Lemma peak_median_of_scalar (x : float) :
  peak_of (PScalar x) = Success (np_max [x]) /\ median_of (PScalar x) = np_median [x].
Proof. split; reflexivity. Qed.

Lemma npix_of_finite_scalar (x : float) :
  PrimFloat.is_nan x = false -> npix_of (PScalar x) = Failure TypeError.
Proof. intros H. unfold npix_of. simpl. rewrite H. reflexivity. Qed.

Lemma npix_of_array (xs : list float) :
  npix_of (PArray xs)
  = Success (if existsb PrimFloat.is_nan xs then fnan
             else float_of_nat (length xs)).
Proof. unfold npix_of. simpl. destruct (existsb _ xs); reflexivity. Qed.
End StatisticFacts.

(** C4.  A single-pixel aperture with a finite value.  The [sum] loop turns
    the [TypeError] of subscripting the float into a NaN, but the [npix] loop
    calls [len] on the same float outside any [try], and [photometer] raises
    [TypeError]; an aperture that selects no pixel makes [np.max] raise
    [ValueError].  Neither is turned into a NaN, and the table is left
    without the new columns. *)
Theorem photometer_single_pixel_raises :
  photometer (N := RefNumerics) [ellipse] None single_pixel_catalog
  = Raise TypeError single_pixel_catalog
  /\ photometer (N := RefNumerics) [ellipse] None empty_aperture_catalog
     = Raise ValueError empty_aperture_catalog.
Proof. split; vm_compute; reflexivity. Qed.

(** ** [photometer] *)

Section PhotometerClaims.
Context {N : Numerics}.





(** C10.  A completed call on the default catalog keeps the row count; it
    keeps the data of every column that is not one of the five columns of a
    processed (frequency object, aperture) pair, among them [_name],
    [_index] and [rejected]; such a column comes back as it was or with the
    mask pass applied, and as it was when it holds no NaN. *)
Theorem photometer_frame (args : list aperture) (mc mc' : MasterCatalog)
    (t : table) :
  catalog mc = Some t ->
  wf_table t ->
  In "rejected" (colnames t) ->
  photometer args None mc = Ok tt mc' ->
  exists t',
    catalog mc' = Some t' /\ same_attributes mc mc'
    /\ nrows t' = nrows t
    /\ (forall n, In n ["_name"; "_index"; "rejected"] ->
          option_map cdata (getcol t' n) = option_map cdata (getcol t n))
    /\ (forall n, untouched (rs_objects_of mc) args n ->
          (getcol t' n = getcol t n
           \/ getcol t' n = option_map remask_col (getcol t n))
          /\ option_map cdata (getcol t' n) = option_map cdata (getcol t n)
          /\ forall c, getcol t n = Some c -> has_nan c = false ->
                       getcol t' n = Some c).
Proof.
  intros Hcat Hwf Hrej H.
  destruct (photometer_ok args mc mc' t Hcat H) as (t' & Hc' & Ha & Hr).
  destruct (wf_table_parts _ Hwf) as (Hnd & Hl & Hm).
  exists t'. split; [exact Hc'|]. split; [exact Ha|]. split.
  { apply (runs_nrows _ _ _ _ "rejected" Hr Hl); [|exact Hrej].
    now apply not_stat_name_untouched. }
  split.
  { intros n Hn. apply (runs_data _ _ _ _ n Hr).
    apply not_stat_name_untouched.
    simpl in Hn. destruct Hn as [<-|[<-|[<-|[]]]]; reflexivity. }
  intros n Hn. split; [exact (runs_frame _ _ _ _ Hr n Hn)|].
  split; [exact (runs_data _ _ _ _ n Hr Hn)|].
  intros c Hc Hnan. destruct (runs_frame _ _ _ _ Hr n Hn) as [E|E]; rewrite E, Hc.
  - reflexivity.
  - simpl. now rewrite remask_col_no_nan.
Qed.
End PhotometerClaims.

(** ** Concrete runs of [photometer] *)

Example photometer_three_pixels :
  photometer (N := RefNumerics) [ellipse] None three_pixel_catalog
  = Ok tt
      (set_catalog
         (one_source ++
          [unmasked "b3_ellipse_peak" (DFloat [3]%float);
           unmasked "b3_ellipse_sum" (DFloat [3]%float);
           mkColumn "b3_ellipse_rms" (DFloat [ref_rms (PArray [1; 2; 3]%float)]) [false];
           unmasked "b3_ellipse_median" (DFloat [2]%float);
           unmasked "b3_ellipse_npix" (DFloat [3]%float)])
         three_pixel_catalog).
Proof. vm_compute. reflexivity. Qed.

Example photometer_twice_same_table :
  photometer (N := RefNumerics) [ellipse] None
    (object_after (photometer (N := RefNumerics) [ellipse] None three_pixel_catalog))
  = Ok tt (object_after (photometer (N := RefNumerics) [ellipse] None three_pixel_catalog)).
Proof. vm_compute. reflexivity. Qed.

(** A NaN position and the NaN pixel count are masked by the call. *)
Example photometer_masks_nan_cells :
  exists t',
    catalog (object_after (photometer (N := RefNumerics) [ellipse] None nan_cell_catalog))
    = Some t'
    /\ masked t' "x_cen" 0 = true
    /\ masked t' "b3_ellipse_npix" 0 = true
    /\ masked t' "_name" 0 = false.
Proof. eexists. split; [vm_compute; reflexivity|]. repeat split. Qed.



Ltac closed_nodup :=
  repeat (constructor; [simpl; intuition discriminate|]); constructor.

Lemma one_source_wf (extra : list column) :
  Forall (wf_col 1) extra -> NoDup (colnames (one_source ++ extra)) ->
  wf_table (one_source ++ extra).
Proof.
  intros H Hnd. split; [exact Hnd|]. apply Forall_app. split; [|exact H].
  repeat constructor.
Qed.

Lemma fixed_source_reads_geometry (fid : string) (freq beam : float)
    (pix : list pixels) :
  reads_geometry (fixed_source fid freq beam pix).
Proof. intros ap t t' _. reflexivity. Qed.




Lemma photometer_frame_witness :
  exists t',
    catalog (object_after (photometer (N := RefNumerics) [ellipse] None nan_cell_catalog))
    = Some t'
    /\ same_attributes nan_cell_catalog
         (object_after (photometer (N := RefNumerics) [ellipse] None nan_cell_catalog))
    /\ nrows t' = nrows (one_source ++ [unmasked "x_cen" (DFloat [fnan])])
    /\ (forall n, In n ["_name"; "_index"; "rejected"] ->
          option_map cdata (getcol t' n)
          = option_map cdata
              (getcol (one_source ++ [unmasked "x_cen" (DFloat [fnan])]) n))
    /\ (forall n, untouched (rs_objects_of nan_cell_catalog) [ellipse] n ->
          (getcol t' n = getcol (one_source ++ [unmasked "x_cen" (DFloat [fnan])]) n
           \/ getcol t' n
              = option_map remask_col
                  (getcol (one_source ++ [unmasked "x_cen" (DFloat [fnan])]) n))
          /\ option_map cdata (getcol t' n)
             = option_map cdata
                 (getcol (one_source ++ [unmasked "x_cen" (DFloat [fnan])]) n)
          /\ forall c,
               getcol (one_source ++ [unmasked "x_cen" (DFloat [fnan])]) n = Some c ->
               has_nan c = false -> getcol t' n = Some c).
Proof.
  apply (photometer_frame (N := RefNumerics) [ellipse] nan_cell_catalog).
  - reflexivity.
  - apply one_source_wf; [repeat constructor | closed_nodup].
  - simpl. tauto.
  - vm_compute. reflexivity.
Defined.

(** ** [add_sources] *)

Lemma nth_repeat_true (n i : nat) : i < n -> nth i (repeat true n) false = true.
Proof.
  revert i. induction n as [|n IH]; intros [|i] H; simpl; try lia; auto.
  apply IH. lia.
Qed.

Lemma getcol_only_right (t s : table) (n : string) :
  has_col t n = false ->
  getcol (map (stack_right t) (only_right t s)) n
  = option_map (stack_right t) (getcol s n).
Proof.
  intros Hn. unfold getcol, only_right. induction s as [|c s IH]; simpl; [reflexivity|].
  destruct (String.eqb (cname c) n) eqn:E.
  - assert (Hc : has_col t (cname c) = false).
    { apply String.eqb_eq in E. now rewrite E. }
    rewrite Hc. simpl. now rewrite E.
  - destruct (negb (has_col t (cname c))); simpl; [|exact IH]. now rewrite E.
Qed.

(** C6.  Stacking a compatible table of M rows on a catalog of N rows
    completes; the new table has N + M rows, the cells of the old rows
    first and the cells of the new rows after them, and its [_index] column
    is 0, 1, ..., N + M - 1, unmasked.  Any completed call that stacks at
    least one table leaves [_index] equal to the row numbers. *)
Theorem add_sources_dense_index (mc : MasterCatalog) (t s : table) :
  catalog mc = Some t ->
  wf_table t -> wf_table s -> compatible t s ->
  (exists mc' t',
     add_sources [s] mc = Ok tt mc'
     /\ catalog mc' = Some t'
     /\ nrows t' = nrows t + nrows s
     /\ getcol t' "_index" = Some (range_col (nrows t + nrows s) "_index")
     /\ (forall i, i < nrows t + nrows s ->
           stored t' "_index" i = Some (VInt (Z.of_nat i))
           /\ masked t' "_index" i = false)
     /\ (forall n i, n <> "_index" -> i < nrows t ->
           stored t' n i = stored t n i /\ masked t' n i = masked t n i)
     /\ (forall n i, n <> "_index" -> i < nrows s ->
           stored t' n (nrows t + i) = stored s n i
           /\ masked t' n (nrows t + i) = masked s n i))
  /\ (forall args mc',
        args <> [] -> add_sources args mc = Ok tt mc' ->
        exists t', catalog mc' = Some t' /\ dense_index t').
Proof.
  intros Hcat Hwf Hwfs Hc. split.
  - destruct (wf_table_parts _ Hwf) as (Hnd & Hl & Hm).
    destruct (wf_table_parts _ Hwfs) as (_ & Hls & _).
    destruct (vstack_ok t s (compatible_mergeable _ _ Hnd Hc)) as (left & _ & _ & Ev).
    pose proof (nrows_vstack _ _ _ Hls Ev) as Hrows.
    pose proof (dense_index_set (left ++ map (stack_right t) (only_right t s))) as Hdense.
    unfold dense_index in Hdense. rewrite nrows_set_range_col, Hrows in Hdense.
    eexists. eexists. split; [rewrite (add_sources_one _ _ _ Hcat), Ev; reflexivity|].
    split; [reflexivity|]. split; [now rewrite nrows_set_range_col|].
    rewrite Hrows. split; [exact Hdense|]. split.
    { intros i Hi. now apply (stored_range_col _ (nrows t + nrows s)). }
    split.
    + intros n i Hn Hi. unfold stored, masked.
      rewrite (getcol_set_range_col_other _ _ _ _ Hn).
      exact (proj1 (vstack_compatible_rows _ _ _ n Hc Hwf Ev) i Hi).
    + intros n i Hn Hi. unfold stored, masked.
      rewrite (getcol_set_range_col_other _ _ _ _ Hn).
      exact (proj2 (vstack_compatible_rows _ _ _ n Hc Hwf Ev) i).
  - intros args mc' Ha H. apply (add_sources_dense args mc mc'); [now left | exact H].
Qed.

(** C9 (amended).  [add_sources] joins on the union of the column names.
    When every column the two tables share can be concatenated the call
    completes: the new table has exactly the columns of either table (and
    [_index]), and the cells a table does not have are masked.  Otherwise, a
    shared column holding strings in one table and numbers in the other, the
    call raises [TableMergeError] and the catalog is left as it was. *)
Theorem add_sources_outer_join (mc : MasterCatalog) (t s : table) :
  catalog mc = Some t ->
  wf_table t ->
  (mergeable t s = true ->
   exists mc' t',
     add_sources [s] mc = Ok tt mc'
     /\ catalog mc' = Some t'
     /\ (forall n, has_col t' n = has_col t n || has_col s n || String.eqb n "_index")
     /\ (forall n i, n <> "_index" -> has_col t n = true -> has_col s n = false ->
           i < nrows s -> masked t' n (nrows t + i) = true)
     /\ (forall n i, n <> "_index" -> has_col t n = false -> has_col s n = true ->
           i < nrows t -> masked t' n i = true))
  /\ (mergeable t s = false -> add_sources [s] mc = Raise TableMergeError mc).
Proof.
  intros Hcat Hwf. split.
  - intros Hm. destruct (vstack_ok t s Hm) as (left & El & En & Ev).
    eexists. eexists. split; [rewrite (add_sources_one _ _ _ Hcat), Ev; reflexivity|].
    split; [reflexivity|]. split.
    { intros n. rewrite has_col_set_range_col, has_col_app, has_col_only_right.
      rewrite (has_col_names left t n En).
      destruct (has_col t n), (has_col s n); reflexivity. }
    split.
    + intros n i Hn Ht Hs Hi. unfold masked.
      rewrite (getcol_set_range_col_other _ _ _ _ Hn), getcol_app.
      rewrite (getcol_stacked_left _ _ _ n El).
      rewrite has_col_getcol in Ht, Hs.
      destruct (getcol t n) as [c|] eqn:Ec; [|discriminate].
      destruct (getcol_Some _ _ _ Ec) as [Hin Hcn].
      unfold stack_left. rewrite Hcn.
      destruct (getcol s n); [discriminate|]. simpl.
      destruct Hwf as [_ Hwf]. rewrite Forall_forall in Hwf.
      destruct (Hwf c Hin) as [_ Hmask].
      rewrite <- Hmask, app_nth2 by lia.
      replace (length (cmask c) + i - length (cmask c)) with i by lia.
      now apply nth_repeat_true.
    + intros n i Hn Ht Hs Hi. unfold masked.
      rewrite (getcol_set_range_col_other _ _ _ _ Hn), getcol_app.
      rewrite (getcol_stacked_left _ _ _ n El).
      rewrite (getcol_only_right _ _ _ Ht).
      rewrite has_col_getcol in Ht, Hs.
      destruct (getcol t n); [discriminate|].
      destruct (getcol s n) as [c'|]; [|discriminate]. simpl.
      rewrite app_nth1 by (now rewrite repeat_length).
      now apply nth_repeat_true.
  - intros Hm. now rewrite (add_sources_one _ _ _ Hcat), (vstack_fail _ _ Hm).
Qed.

(** C9, as stated, fails: a table with other columns is stacked without an
    error, and the catalog comes out with a column it did not have. *)
Lemma add_sources_mismatch_completes :
  ~ compatible two_sources new_sources
  /\ exists mc' t',
       add_sources [new_sources] two_sources_catalog = Ok tt mc'
       /\ catalog mc' = Some t'
       /\ colnames t' = ["_name"; "_index"; "rejected"; "flux"]
       /\ colnames two_sources = ["_name"; "_index"; "rejected"].
Proof.
  split.
  - intros H. specialize (H "flux"). exact H.
  - eexists. eexists. split; [vm_compute; reflexivity|].
    split; [reflexivity|]. split; reflexivity.
Qed.

Example add_sources_numbered_raises :
  add_sources [numbered_sources] two_sources_catalog
  = Raise TableMergeError two_sources_catalog.
Proof. reflexivity. Qed.

Lemma two_sources_wf : wf_table two_sources.
Proof. split; [closed_nodup | repeat constructor]. Qed.

Lemma more_sources_wf : wf_table more_sources.
Proof. split; [closed_nodup | repeat constructor]. Qed.

Lemma more_sources_compatible : compatible two_sources more_sources.
Proof.
  intros n.
  destruct (String.eqb_spec n "_name") as [->|H1]; [reflexivity|].
  destruct (String.eqb_spec n "_index") as [->|H2]; [reflexivity|].
  destruct (String.eqb_spec n "rejected") as [->|H3]; [reflexivity|].
  assert (E1 : getcol two_sources n = None)
    by (apply getcol_None; simpl; intuition congruence).
  assert (E2 : getcol more_sources n = None)
    by (apply getcol_None; simpl; intuition congruence).
  rewrite E1, E2. exact I.
Qed.

Lemma add_sources_dense_index_witness :
  (exists mc' t',
     add_sources [more_sources] two_sources_catalog = Ok tt mc'
     /\ catalog mc' = Some t'
     /\ nrows t' = nrows two_sources + nrows more_sources
     /\ getcol t' "_index"
        = Some (range_col (nrows two_sources + nrows more_sources) "_index")
     /\ (forall i, i < nrows two_sources + nrows more_sources ->
           stored t' "_index" i = Some (VInt (Z.of_nat i))
           /\ masked t' "_index" i = false)
     /\ (forall n i, n <> "_index" -> i < nrows two_sources ->
           stored t' n i = stored two_sources n i
           /\ masked t' n i = masked two_sources n i)
     /\ (forall n i, n <> "_index" -> i < nrows more_sources ->
           stored t' n (nrows two_sources + i) = stored more_sources n i
           /\ masked t' n (nrows two_sources + i) = masked more_sources n i))
  /\ (forall args mc',
        args <> [] -> add_sources args two_sources_catalog = Ok tt mc' ->
        exists t', catalog mc' = Some t' /\ dense_index t').
Proof.
  apply (add_sources_dense_index two_sources_catalog two_sources more_sources).
  - reflexivity.
  - exact two_sources_wf.
  - exact more_sources_wf.
  - exact more_sources_compatible.
Defined.

Lemma add_sources_outer_join_witness :
  (mergeable two_sources new_sources = true ->
   exists mc' t',
     add_sources [new_sources] two_sources_catalog = Ok tt mc'
     /\ catalog mc' = Some t'
     /\ (forall n, has_col t' n
                   = has_col two_sources n || has_col new_sources n
                     || String.eqb n "_index")
     /\ (forall n i, n <> "_index" -> has_col two_sources n = true ->
           has_col new_sources n = false ->
           i < nrows new_sources -> masked t' n (nrows two_sources + i) = true)
     /\ (forall n i, n <> "_index" -> has_col two_sources n = false ->
           has_col new_sources n = true ->
           i < nrows two_sources -> masked t' n i = true))
  /\ (mergeable two_sources new_sources = false ->
      add_sources [new_sources] two_sources_catalog
      = Raise TableMergeError two_sources_catalog).
Proof.
  apply (add_sources_outer_join two_sources_catalog two_sources new_sources).
  - reflexivity.
  - exact two_sources_wf.
Defined.

(** ** [ffplot] *)

Section ComparisonClaims.
Context {N : Numerics}.


(** In the namespace of the module as written the names [ellipse] and
    [annulus] are unbound, and the call stops there. *)
Lemma ffplot_module_namespace (rsobj1 rsobj2 : RadioSource)
    (apertures : list aperture) (peak : bool) (mc : MasterCatalog) (t : table) :
  catalog mc = Some t ->
  ffplot module_namespace rsobj1 rsobj2 apertures peak mc = Raise NameError mc.
Proof.
  intros Hcat. unfold ffplot, bind, self_catalog. rewrite Hcat. reflexivity.
Qed.
End ComparisonClaims.


Example ffplot_keeps_accepted_source :
  exists mc',
    ffplot (N := RefNumerics) bound_namespace b6_source b3_source [] false
      two_frequency_catalog
    = Ok (mkComparison
            [unmasked "b3_ellipse_sum" (DFloat [4]%float)]
            [unmasked "b6_ellipse_sum" (DFloat [12]%float)]
            [mkColumn "b3_annulus_rms" (DFloat [ref_rms (PArray [3; 4; 5]%float)]) [false]]
            [mkColumn "b6_annulus_rms" (DFloat [ref_rms (PArray [3; 4; 5]%float)]) [false]]
            (unmasked "_name" (DStr ["b"])))
         mc'.
Proof. eexists. vm_compute. reflexivity. Qed.

(** * Further properties *)

(** ** The registry of frequency objects *)
Lemma dict_get_set_same {V} (k : string) (v : V) (d : list (string * V)) :
  dict_get k (dict_set k v d) = Some v.
Proof.
  induction d as [|[k' v'] d IH]; simpl.
  - now rewrite String.eqb_refl.
  - destruct (String.eqb k' k) eqn:E; simpl.
    + now rewrite String.eqb_refl.
    + now rewrite E.
Qed.

Lemma dict_get_set_other {V} (k k0 : string) (v : V) (d : list (string * V)) :
  k0 <> k -> dict_get k0 (dict_set k v d) = dict_get k0 d.
Proof.
  intros Hne. induction d as [|[k' v'] d IH]; simpl.
  - destruct (String.eqb_spec k k0); [congruence | reflexivity].
  - destruct (String.eqb k' k) eqn:E; simpl.
    + apply String.eqb_eq in E. subst k'.
      destruct (String.eqb_spec k k0); [congruence | reflexivity].
    + destruct (String.eqb k' k0); [reflexivity | exact IH].
Qed.

Lemma dict_set_keys {V} (k : string) (v : V) (d : list (string * V)) (x : string) :
  In x (map fst (dict_set k v d)) <-> x = k \/ In x (map fst d).
Proof.
  induction d as [|[k' v'] d IH]; simpl.
  - intuition congruence.
  - destruct (String.eqb_spec k' k) as [E|E]; simpl.
    + subst. intuition congruence.
    + rewrite IH. intuition congruence.
Qed.

Lemma dict_set_NoDup {V} (k : string) (v : V) (d : list (string * V)) :
  NoDup (map fst d) -> NoDup (map fst (dict_set k v d)).
Proof.
  induction d as [|[k' v'] d IH]; simpl; intros H.
  - constructor; [tauto | constructor].
  - inversion H as [|? ? Hnot Hnd]; subst.
    destruct (String.eqb_spec k' k) as [E|E]; simpl.
    + subst. now constructor.
    + constructor; [|now apply IH].
      rewrite dict_set_keys. intros [E'|Hin]; [congruence | contradiction].
Qed.

Lemma dict_set_keyed (rs : RadioSource) (d : list (string * RadioSource)) :
  keyed_by_freq_id d -> keyed_by_freq_id (dict_set (key_of rs) rs d).
Proof.
  unfold keyed_by_freq_id. induction d as [|[k' v'] d IH]; simpl; intros H.
  - constructor; [reflexivity | constructor].
  - inversion H as [|? ? Hk Hd]; subst.
    destruct (String.eqb k' (key_of rs)); constructor;
      first [reflexivity | assumption | now apply IH].
Qed.

Lemma add_object_radiosource (rs : RadioSource) (mc : MasterCatalog) :
  add_object (ObjRadioSource rs) mc
  = Ok tt (mkMasterCatalog (catalog mc) (nonrejected mc) (accepted mc)
             (dict_set (key_of rs) rs (radiosources mc))).
Proof. reflexivity. Qed.

Lemma registry_ok_add_object (o : object) (mc : MasterCatalog) :
  registry_ok mc -> registry_ok (object_after (add_object o mc)).
Proof.
  intros [Hk Hn]. destruct o as [rs|other]; simpl.
  - split; simpl; [now apply dict_set_keyed | now apply dict_set_NoDup].
  - destruct (radiosources other); simpl; now split.
Qed.

Lemma registry_ok_add_objects (args : list object) :
  forall mc, registry_ok mc -> registry_ok (object_after (add_objects args mc)).
Proof.
  unfold add_objects. induction args as [|o args IH]; intros mc H; [exact H|].
  simpl. unfold bind.
  pose proof (registry_ok_add_object o mc H) as H1.
  destruct (add_object o mc) as [u mc1|e mc1]; simpl in *; [now apply IH | exact H1].
Qed.

Lemma registry_distinct_labels (mc : MasterCatalog) :
  registry_ok mc -> NoDup (map freq_id (rs_objects_of mc)).
Proof.
  intros [Hk Hn]. unfold rs_objects_of, keyed_by_freq_id in *.
  induction (radiosources mc) as [|[k v] d IH]; simpl in *; [constructor|].
  inversion Hk as [|? ? Hkv Hd]; inversion Hn as [|? ? Hnot Hnd]; subst.
  constructor; [|now apply IH].
  intros Hin. apply Hnot. rewrite map_map in Hin. apply in_map_iff in Hin.
  destruct Hin as ([k' v'] & E & Hin'). simpl in E.
  rewrite Forall_forall in Hd. specialize (Hd _ Hin'). simpl in *.
  apply in_map_iff. exists (k', v'). split; [|exact Hin'].
  simpl. rewrite Hkv, Hd. unfold key_of. now rewrite E.
Qed.

(** X1.  The frequency objects of a catalog carry pairwise distinct
    [freq_id] labels: the constructor builds such a registry and
    [add_objects] keeps it, since an object registered under a label already
    in use takes the place of the earlier one. *)
Theorem registry_kept (args : list object) (cat : option table)
    (more : list object) :
  let built := object_after (MasterCatalog_init args cat) in
  registry_ok built
  /\ NoDup (map freq_id (rs_objects_of built))
  /\ NoDup (map freq_id (rs_objects_of (object_after (add_objects more built)))).
Proof.
  assert (H : registry_ok (object_after (MasterCatalog_init args cat))).
  { unfold MasterCatalog_init. destruct cat as [t|].
    - destruct (getcol t "rejected"); [|split; constructor].
      apply registry_ok_add_objects. split; constructor.
    - apply registry_ok_add_objects. split; constructor. }
  cbv zeta. split; [exact H|]. split.
  - now apply registry_distinct_labels.
  - apply registry_distinct_labels. now apply registry_ok_add_objects.
Qed.

Lemma for_each_app {A} (body : A -> M unit) (l1 l2 : list A) (mc : MasterCatalog) :
  for_each (l1 ++ l2) body mc = (for_each l1 body ;; for_each l2 body) mc.
Proof.
  revert mc. induction l1 as [|a l1 IH]; intros mc; simpl.
  - reflexivity.
  - unfold bind. destruct (body a mc) as [u mc1|e mc1]; [|reflexivity].
    rewrite IH. reflexivity.
Qed.

Lemma key_of_inj (a b : RadioSource) : key_of a = key_of b -> freq_id a = freq_id b.
Proof. unfold key_of. apply append_inv_head. Qed.

Lemma add_objects_importable (args : list object) :
  forall mc,
    forallb importable args = true ->
    add_objects args mc
    = Ok tt (mkMasterCatalog (catalog mc) (nonrejected mc) (accepted mc)
               (register (frequency_objects args) (radiosources mc))).
Proof.
  unfold add_objects. induction args as [|o args IH]; intros mc H; simpl.
  - unfold ret. now destruct mc.
  - simpl in H. apply andb_true_iff in H. destruct H as [Ho Ha].
    unfold bind. destruct o as [rs|other]; simpl.
    + rewrite (IH _ Ha). reflexivity.
    + simpl in Ho. destruct (radiosources other); [|discriminate].
      now rewrite (IH _ Ha).
Qed.

Lemma dict_get_register_other (l : list RadioSource) :
  forall (d : list (string * RadioSource)) (k : string),
    (forall rs, In rs l -> key_of rs <> k) ->
    dict_get k (register l d) = dict_get k d.
Proof.
  unfold register. induction l as [|x l IH]; intros d k H; simpl; [reflexivity|].
  rewrite IH by (intros rs Hrs; apply H; now right).
  apply dict_get_set_other. intros E. apply (H x (or_introl eq_refl)). now symmetry.
Qed.

Lemma register_app (l1 l2 : list RadioSource) (d : list (string * RadioSource)) :
  register (l1 ++ l2) d = register l2 (register l1 d).
Proof. unfold register. apply fold_left_app. Qed.

(** X2.  [add_objects] with frequency objects (and catalogs that have none)
    completes and touches nothing but the registry; looking up a label then
    gives the last object registered under it, and a label no argument
    carries is as before. *)
Theorem add_objects_last_wins (args : list object) (mc : MasterCatalog) :
  forallb importable args = true ->
  exists mc',
    add_objects args mc = Ok tt mc'
    /\ catalog mc' = catalog mc /\ nonrejected mc' = nonrejected mc
    /\ accepted mc' = accepted mc
    /\ (forall l1 rs l2,
          frequency_objects args = l1 ++ rs :: l2 ->
          ~ In (freq_id rs) (map freq_id l2) ->
          dict_get (key_of rs) (radiosources mc') = Some rs)
    /\ (forall k,
          (forall rs, In rs (frequency_objects args) -> key_of rs <> k) ->
          dict_get k (radiosources mc') = dict_get k (radiosources mc)).
Proof.
  intros H. eexists. split; [exact (add_objects_importable args mc H)|].
  simpl. repeat split.
  - intros l1 rs l2 E Hlast. rewrite E.
    change (l1 ++ rs :: l2) with (l1 ++ [rs] ++ l2).
    rewrite !register_app. rewrite dict_get_register_other.
    + apply dict_get_set_same.
    + intros x Hx Ek. apply Hlast. apply key_of_inj in Ek. rewrite <- Ek.
      now apply in_map.
  - intros k Hk. now apply dict_get_register_other.
Qed.

(** X3.  [add_objects] with another catalog that has a frequency object
    raises [TypeError] (the method subscripts the catalog): the arguments
    before it have been registered, the ones after it are not looked at. *)
Theorem add_objects_catalog_raises (l1 l2 : list object) (other mc : MasterCatalog) :
  forallb importable l1 = true ->
  radiosources other <> [] ->
  exists mc',
    add_objects (l1 ++ ObjMasterCatalog other :: l2) mc = Raise TypeError mc'
    /\ catalog mc' = catalog mc /\ nonrejected mc' = nonrejected mc
    /\ accepted mc' = accepted mc
    /\ radiosources mc' = register (frequency_objects l1) (radiosources mc).
Proof.
  intros H1 Ho. eexists. split.
  - unfold add_objects. rewrite for_each_app. unfold bind.
    fold (add_objects l1). rewrite (add_objects_importable l1 mc H1).
    simpl. unfold bind. simpl. destruct (radiosources other); [congruence|].
    reflexivity.
  - simpl. auto.
Qed.

Lemma add_objects_keeps_tables (args : list object) :
  forall mc,
    catalog (object_after (add_objects args mc)) = catalog mc
    /\ nonrejected (object_after (add_objects args mc)) = nonrejected mc
    /\ accepted (object_after (add_objects args mc)) = accepted mc.
Proof.
  unfold add_objects. induction args as [|o args IH]; intros mc; simpl; [auto|].
  unfold bind. destruct o as [rs|other]; simpl.
  - destruct (IH (mkMasterCatalog (catalog mc) (nonrejected mc) (accepted mc)
                    (dict_set (obj_prefix +++ freq_id rs) rs (radiosources mc))))
      as (H1 & H2 & H3).
    destruct (for_each args add_object _); simpl in *; auto.
  - destruct (radiosources other); simpl; [|auto].
    destruct (IH mc) as (H1 & H2 & H3).
    destruct (for_each args add_object mc); simpl in *; auto.
Qed.

(** X4.  An object built without a table has no [catalog] attribute, and
    every method that reads the table raises [AttributeError] on it and leaves
    it as it is. *)
Theorem no_catalog_raises {N : Numerics} (args : list object) (G : namespace)
    (name : name_arg) (s : table) (more : list table) (ap : aperture)
    (aps : list aperture) (rsobj1 rsobj2 : RadioSource) (peak : bool) :
  let built := object_after (MasterCatalog_init args None) in
  catalog built = None
  /\ grab G name false built = Raise AttributeError built
  /\ add_sources (s :: more) built = Raise AttributeError built
  /\ photometer (ap :: aps) None built = Raise AttributeError built
  /\ ffplot G rsobj1 rsobj2 aps peak built = Raise AttributeError built.
Proof.
  cbv zeta. unfold MasterCatalog_init.
  destruct (add_objects_keeps_tables args (mkMasterCatalog None None None []))
    as (Hc & _ & _). simpl in Hc.
  set (built := object_after (add_objects args (mkMasterCatalog None None None []))) in *.
  split; [exact Hc|]. split.
  { unfold grab, bind, self_catalog. now rewrite Hc. }
  split.
  { unfold add_sources. simpl. unfold bind, self_catalog. now rewrite Hc. }
  split.
  { unfold photometer. simpl. unfold bind, photometer_aperture, bind, self_catalog.
    now rewrite Hc. }
  unfold ffplot, bind, self_catalog. now rewrite Hc.
Qed.

(** ** The constructor and [grab] *)







(** ** [add_sources], further *)

Lemma add_sources_cons (s : table) (l : list table) (mc : MasterCatalog) :
  add_sources (s :: l) mc
  = match catalog mc with
    | None => Raise AttributeError mc
    | Some t =>
        match vstack t s with
        | Failure e => Raise e mc
        | Success st =>
            add_sources l (set_catalog (set_range_col "_index" (nrows st) st) mc)
        end
    end.
Proof.
  unfold add_sources. simpl. unfold bind, self_catalog, lift, update_catalog.
  destruct (catalog mc) as [t|]; [|reflexivity].
  destruct (vstack t s); reflexivity.
Qed.

(** X7.  [add_sources] rebinds [self.catalog] and nothing else, whether it
    completes or raises: the frequency objects stay, and so does the
    [nonrejected] view, which still shows the rows of the table the object
    was built from. *)
Theorem add_sources_keeps_views (args : list table) (mc : MasterCatalog) :
  same_attributes mc (object_after (add_sources args mc)).
Proof.
  revert mc. induction args as [|s l IH]; intros mc.
  - repeat split.
  - rewrite add_sources_cons. destruct (catalog mc) as [t|]; [|repeat split].
    destruct (vstack t s) as [st|e]; [|repeat split].
    destruct (IH (set_catalog (set_range_col "_index" (nrows st) st) mc))
      as (H1 & H2 & H3).
    repeat split; simpl in *; congruence.
Qed.

(** X8.  Stacking tables in one call is stacking them call after call: the
    same object and the same outcome, also when one of the stacks fails. *)
Theorem add_sources_app (l1 l2 : list table) (mc : MasterCatalog) :
  add_sources (l1 ++ l2) mc
  = match add_sources l1 mc with
    | Ok _ mc1 => add_sources l2 mc1
    | Raise e mc1 => Raise e mc1
    end.
Proof. unfold add_sources. now rewrite for_each_app. Qed.

Lemma mapR_stack_left_names (s t left : table) :
  mapR (stack_left s) t = Success left -> colnames left = colnames t.
Proof.
  revert left. induction t as [|c t IH]; simpl; intros left H.
  - now inversion H.
  - destruct (stack_left s c) as [x|] eqn:Ex; simpl in H; [|discriminate].
    destruct (mapR (stack_left s) t) as [l'|]; simpl in H; [|discriminate].
    inversion H. simpl. rewrite (stack_left_name _ _ _ Ex). f_equal. now apply IH.
Qed.

Lemma mapR_In {A B} (f : A -> result B) (l : list A) (l' : list B) (b : B) :
  mapR f l = Success l' -> In b l' -> exists a, In a l /\ f a = Success b.
Proof.
  revert l'. induction l as [|x l IH]; simpl; intros l' H Hb.
  - inversion H; subst. contradiction.
  - destruct (f x) as [y|] eqn:Ey; simpl in H; [|discriminate].
    destruct (mapR f l) as [ys|]; simpl in H; [|discriminate].
    inversion H; subst. destruct Hb as [<-|Hb].
    + exists x. auto.
    + destruct (IH ys eq_refl Hb) as (a & Ha & Hf). exists a. auto.
Qed.

Lemma wf_table_of_parts (t : table) :
  NoDup (colnames t) -> same_lengths t = true -> masks_cover t -> wf_table t.
Proof.
  intros Hnd Hl Hm. split; [exact Hnd|]. apply Forall_forall. intros c Hc.
  rewrite same_lengths_spec in Hl. unfold masks_cover in Hm.
  rewrite Forall_forall in Hm. split; [now apply Hl|].
  rewrite (Hm c Hc). now apply Hl.
Qed.

Lemma colnames_only_right_NoDup (t s : table) :
  NoDup (colnames s) -> NoDup (colnames (map (stack_right t) (only_right t s))).
Proof.
  unfold colnames, only_right. rewrite map_map. simpl.
  induction s as [|c s IH]; simpl; intros H; [constructor|].
  inversion H as [|? ? Hnot Hnd]; subst.
  destruct (negb (has_col t (cname c))); simpl; [|now apply IH].
  constructor; [|now apply IH].
  intros Hin. apply Hnot. apply in_map_iff in Hin. destruct Hin as (d & E & Hd).
  apply filter_In in Hd. rewrite <- E. apply in_map. tauto.
Qed.

(** The stacked table of two well-formed tables is well formed. *)
Lemma vstack_wf (t s st : table) :
  wf_table t -> wf_table s -> vstack t s = Success st -> wf_table st.
Proof.
  intros Hwt Hws Hv.
  destruct (wf_table_parts _ Hwt) as (Hnt & Hlt & Hmt).
  destruct (wf_table_parts _ Hws) as (Hns & Hls & Hms).
  pose proof (nrows_vstack _ _ _ Hls Hv) as Hrows.
  unfold vstack in Hv.
  destruct (mapR (stack_left s) t) as [left|] eqn:El; simpl in Hv; [|discriminate].
  inversion Hv; subst st. clear Hv.
  split.
  - unfold colnames. rewrite map_app. apply NoDup_app.
    + fold (colnames left). now rewrite (mapR_stack_left_names _ _ _ El).
    + now apply colnames_only_right_NoDup.
    + intros n Hn Hn'. fold (colnames left) in Hn.
      rewrite (mapR_stack_left_names _ _ _ El) in Hn.
      apply in_map_iff in Hn'. destruct Hn' as (x & E & Hx).
      apply in_map_iff in Hx. destruct Hx as (c' & E' & Hc').
      apply filter_In in Hc'. destruct Hc' as [_ Hc'].
      apply negb_true_iff in Hc'. subst x. simpl in E. subst n.
      apply has_col_In in Hn. congruence.
  - rewrite Hrows. apply Forall_app. split; apply Forall_forall.
    + intros x Hx. destruct (mapR_In _ _ _ _ El Hx) as (c & Hc & Ex).
      destruct Hwt as [_ Hwt]. rewrite Forall_forall in Hwt.
      destruct (Hwt c Hc) as [Hc1 Hc2].
      split; [rewrite (clen_stack_left _ _ _ Hls Ex); lia|].
      unfold stack_left in Ex. destruct (getcol s (cname c)) as [c'|] eqn:Ec'.
      * destruct (dapp (cdata c) (cdata c')); simpl in Ex; inversion Ex. simpl.
        destruct Hws as [_ Hws]. rewrite Forall_forall in Hws.
        destruct (Hws c' (proj1 (getcol_Some _ _ _ Ec'))) as [_ Hc2'].
        rewrite length_app. lia.
      * inversion Ex. simpl. rewrite length_app, repeat_length. lia.
    + intros x Hx. apply in_map_iff in Hx. destruct Hx as (c' & <- & Hc').
      apply filter_In in Hc'. destruct Hc' as [Hc' _].
      destruct Hws as [_ Hws]. rewrite Forall_forall in Hws.
      destruct (Hws c' Hc') as [Hc1 Hc2]. unfold stack_right, wf_col, clen in *.
      simpl. rewrite dlen_fill_left, length_app, repeat_length. lia.
Qed.

Lemma colnames_set_range_col_NoDup (n : string) (k : nat) (t : table) :
  NoDup (colnames t) -> NoDup (colnames (set_range_col n k t)).
Proof.
  unfold colnames. induction t as [|c t IH]; simpl; intros H.
  - constructor; [tauto | constructor].
  - inversion H as [|? ? Hnot Hnd]; subst.
    destruct (String.eqb_spec (cname c) n) as [E|E]; simpl.
    + rewrite <- E. now constructor.
    + constructor; [|now apply IH].
      intros Hin. apply Hnot. fold (colnames (set_range_col n k t)) in Hin.
      apply has_col_In in Hin. rewrite has_col_set_range_col in Hin.
      apply orb_true_iff in Hin. destruct Hin as [Hin|Hin].
      * now apply has_col_In in Hin.
      * apply String.eqb_eq in Hin. congruence.
Qed.

Lemma set_range_col_wf (t : table) :
  wf_table t -> wf_table (set_range_col "_index" (nrows t) t).
Proof.
  intros [Hnd Hwf]. split; [now apply colnames_set_range_col_NoDup|].
  rewrite nrows_set_range_col.
  assert (Hr : wf_col (nrows t) (range_col (nrows t) "_index")).
  { split; [apply clen_range_col | simpl; apply repeat_length]. }
  revert Hr Hwf. generalize (nrows t). intros k Hr Hwf. clear Hnd.
  induction t as [|c t IH]; simpl.
  - constructor; [exact Hr | constructor].
  - inversion Hwf as [|? ? Hc Ht]; subst.
    destruct (String.eqb (cname c) "_index"); constructor; auto.
Qed.

(** X9.  Stacking well-formed tables on a well-formed catalog, whatever
    their columns: when the call completes, the catalog is well formed again
    (distinct column names, one length, masks as long as the data), it has
    the rows of the old table and of all the new ones, and [_index] numbers
    them. *)
Theorem add_sources_well_formed (args : list table) :
  forall (mc mc' : MasterCatalog) (t : table),
    catalog mc = Some t -> wf_table t -> Forall wf_table args ->
    add_sources args mc = Ok tt mc' ->
    exists t',
      catalog mc' = Some t' /\ wf_table t'
      /\ nrows t' = nrows t + total_rows args
      /\ (args <> [] -> dense_index t').
Proof.
  induction args as [|s l IH]; intros mc mc' t Hcat Hwf Hall H.
  - unfold add_sources in H. simpl in H. unfold ret in H. inversion H; subst.
    exists t. simpl. split; [exact Hcat|]. split; [exact Hwf|].
    split; [lia|]. intros Hne. now elim Hne.
  - rewrite add_sources_cons, Hcat in H.
    inversion Hall as [|? ? Hs Hl]; subst.
    destruct (vstack t s) as [st|] eqn:Ev; [|discriminate].
    pose proof (vstack_wf _ _ _ Hwf Hs Ev) as Hwst.
    pose proof (nrows_vstack _ _ _ (proj1 (proj2 (wf_table_parts _ Hs))) Ev) as Hrows.
    destruct (IH (set_catalog (set_range_col "_index" (nrows st) st) mc) mc'
                (set_range_col "_index" (nrows st) st) eq_refl
                (set_range_col_wf _ Hwst) Hl H) as (t' & Hc' & Hw' & Hn' & _).
    exists t'. split; [exact Hc'|]. split; [exact Hw'|]. split.
    + rewrite Hn', nrows_set_range_col, Hrows. simpl. lia.
    + intros _.
      destruct (add_sources_dense (s :: l) mc mc') as (t'' & Hc'' & Hd'').
      * left. discriminate.
      * now rewrite add_sources_cons, Hcat, Ev.
      * congruence.
Qed.

(** ** [photometer], further *)

Lemma has_col_remask (t : table) (n : string) : has_col (remask t) n = has_col t n.
Proof. unfold has_col. now rewrite colnames_remask. Qed.

Lemma has_col_without (names : list string) (t : table) (n : string) :
  has_col (without names t) n = has_col t n && negb (existsb (String.eqb n) names).
Proof.
  destruct (has_col (without names t) n) eqn:E.
  - apply has_col_In, colnames_without in E. destruct E as [E1 E2].
    apply has_col_In in E1. apply mem_not_In in E2. now rewrite E1, E2.
  - destruct (has_col t n) eqn:E1; [|reflexivity].
    destruct (existsb (String.eqb n) names) eqn:E2; [reflexivity|].
    exfalso. apply has_col_In in E1. apply mem_not_In in E2.
    assert (H : In n (colnames (without names t))) by (apply colnames_without; auto).
    apply has_col_In in H. congruence.
Qed.

Lemma has_col_merged (names : list string) (cols : list column) (t : table)
    (n : string) :
  colnames cols = names ->
  has_col (merged names cols t) n = has_col t n || existsb (String.eqb n) names.
Proof.
  intros E. unfold merged. rewrite has_col_remask, has_col_app, has_col_without.
  unfold has_col at 2. rewrite E.
  destruct (has_col t n), (existsb (String.eqb n) names); reflexivity.
Qed.

Lemma mask_or_nth_mono (m b : list bool) (i : nat) :
  nth i m false = true -> nth i (mask_or m b) false = true.
Proof.
  revert b i. induction m as [|x m IH]; intros [|y b] [|i] H; simpl in *; auto.
  now rewrite H.
Qed.

Lemma remask_col_mask_mono (c : column) (i : nat) :
  nth i (cmask c) false = true -> nth i (cmask (remask_col c)) false = true.
Proof.
  unfold remask_col. destruct (cdata c); simpl; auto. apply mask_or_nth_mono.
Qed.

Section PhotometerFurther.
Context {N : Numerics}.

Lemma steps_has_col (ap : aperture) (l : list RadioSource) (t t' : table) :
  steps ap l t t' ->
  forall n,
    has_col t' n
    = has_col t n
      || existsb (fun rs => existsb (String.eqb n) (stat_names (freq_id rs) ap)) l.
Proof.
  induction 1 as [t|rs l t t' cols E5 Hl Hd Hs IH]; intros n; simpl.
  - now rewrite orb_false_r.
  - rewrite IH, has_col_merged by (now apply five_columns_names in E5).
    now rewrite orb_assoc.
Qed.

Lemma runs_has_col (objs : list RadioSource) (args : list aperture) (t t' : table) :
  runs objs args t t' ->
  forall n, has_col t' n = has_col t n || produced objs args n.
Proof.
  induction 1 as [t|ap args t t1 t' Hs Hr IH]; intros n; unfold produced; simpl.
  - now rewrite orb_false_r.
  - rewrite IH, (steps_has_col _ _ _ _ Hs). unfold produced.
    now rewrite orb_assoc.
Qed.


(** X11.  A completed call on a well-formed table leaves a well-formed
    table, and it unmasks nothing: a cell that was masked in a column the
    call does not replace is still masked. *)
Theorem photometer_well_formed (args : list aperture) (mc mc' : MasterCatalog)
    (t : table) :
  catalog mc = Some t -> wf_table t ->
  photometer args None mc = Ok tt mc' ->
  exists t',
    catalog mc' = Some t' /\ wf_table t'
    /\ forall n i, untouched (rs_objects_of mc) args n ->
         masked t n i = true -> masked t' n i = true.
Proof.
  intros Hcat Hwf H.
  destruct (photometer_ok args mc mc' t Hcat H) as (t' & Hc' & _ & Hr).
  destruct (wf_table_parts _ Hwf) as (Hnd & Hl & Hm).
  exists t'. split; [exact Hc'|]. split.
  - apply wf_table_of_parts.
    + exact (runs_NoDup _ _ _ _ Hr Hnd).
    + exact (runs_same_lengths _ _ _ _ Hr Hl).
    + exact (runs_masks_cover _ _ _ _ Hr Hm).
  - intros n i Hn Hmi. unfold masked in *.
    destruct (runs_frame _ _ _ _ Hr n Hn) as [E|E]; rewrite E; [exact Hmi|].
    destruct (getcol t n) as [c|]; simpl; [|discriminate].
    now apply remask_col_mask_mono.
Qed.

End PhotometerFurther.

(** ** [photometer]: the keyword [catalog] and the failures of the merge *)



Section PhotometerArgument.
Context {N : Numerics}.

Lemma photometer_rs_explicit (ap : aperture) (c T : table) (rs : RadioSource)
    (prev : option column) (mc : MasterCatalog) :
  catalog mc = Some T ->
  get_pixels rs ap c = get_pixels rs ap T ->
  photometer_rs ap (Some c) rs prev mc = photometer_rs ap None rs prev mc.
Proof.
  intros Hcat E. unfold photometer_rs, bind, ret, self_catalog.
  rewrite Hcat, E. reflexivity.
Qed.

Lemma loop_explicit (ap : aperture) (c : table) (l : list RadioSource) :
  (forall rs, In rs l -> reads_geometry rs) ->
  forall (prev : option column) (mc : MasterCatalog) (T : table),
    npix_var_ok prev -> catalog mc = Some T -> geometry c = geometry T ->
    for_each_with l prev (photometer_rs ap (Some c)) mc
    = for_each_with l prev (photometer_rs ap None) mc.
Proof.
  induction l as [|rs l IH]; intros Hr prev mc T Hprev Hcat Hg; [reflexivity|].
  cbn [for_each_with]. unfold bind.
  rewrite (photometer_rs_explicit ap c T rs prev mc Hcat)
    by (apply Hr; [now left | exact Hg]).
  destruct (photometer_rs ap None rs prev mc) as [v mc1|e mc1] eqn:E; [|reflexivity].
  destruct (photometer_rs_ok ap rs prev mc mc1 v T Hprev Hcat E)
    as (cols & E5 & -> & Hv & _).
  apply (IH (fun r Hin => Hr r (or_intror Hin)) v
            (set_catalog (merged (stat_names (freq_id rs) ap) cols T) mc)
            (merged (stat_names (freq_id rs) ap) cols T) Hv eq_refl).
  rewrite Hg. symmetry. apply geometry_merged.
  - intros n. apply stat_names_is_stat_name.
  - now apply five_columns_names in E5.
Qed.

Lemma apertures_explicit (c : table) (args : list aperture) :
  forall (prev : option column) (mc : MasterCatalog) (T : table),
    (forall rs, In rs (rs_objects_of mc) -> reads_geometry rs) ->
    npix_var_ok prev -> catalog mc = Some T -> geometry c = geometry T ->
    for_each_with args prev (photometer_aperture (Some c)) mc
    = for_each_with args prev (photometer_aperture None) mc.
Proof.
  induction args as [|ap args IH]; intros prev mc T Hr Hprev Hcat Hg; [reflexivity|].
  cbn [for_each_with]. unfold bind.
  assert (E0 : photometer_aperture (Some c) ap prev mc
               = photometer_aperture None ap prev mc).
  { unfold photometer_aperture, bind, ret, self_catalog. rewrite Hcat.
    apply (loop_explicit ap c (rs_objects_of mc) Hr prev mc T Hprev Hcat Hg). }
  rewrite E0.
  destruct (photometer_aperture None ap prev mc) as [v mc1|e mc1] eqn:E; [|reflexivity].
  destruct (photometer_aperture_ok ap prev mc mc1 v T Hprev Hcat E)
    as (t1 & Hc1 & (_ & _ & Hrs) & Hv & Hs).
  apply (IH v mc1 t1); auto.
  - unfold rs_objects_of in *. rewrite <- Hrs. exact Hr.
  - rewrite Hg. symmetry. exact (steps_geometry _ _ _ _ Hs).
Qed.

(** X13.  The keyword [catalog]: a table that describes the same sources
    as the master table (the same data in every column that is not a
    photometry column) gives the very outcome of the default, for
    extractions that read the sources only. *)
Theorem photometer_catalog_argument (args : list aperture) (c t : table)
    (mc : MasterCatalog) :
  catalog mc = Some t ->
  geometry c = geometry t ->
  (forall rs, In rs (rs_objects_of mc) -> reads_geometry rs) ->
  photometer args (Some c) mc = photometer args None mc.
Proof.
  intros Hcat Hg Hr. unfold photometer. unfold bind.
  now rewrite (apertures_explicit c args None mc t Hr I Hcat Hg).
Qed.

End PhotometerArgument.

Section PhotometerEdges.
Context {N : Numerics}.


Lemma photometer_aperture_idle (cat : option table) (ap : aperture)
    (prev : option column) (mc : MasterCatalog) :
  rs_objects_of mc = [] ->
  cat <> None \/ catalog mc <> None ->
  photometer_aperture cat ap prev mc = Ok prev mc.
Proof.
  intros Hobjs Hc. unfold photometer_aperture, bind, ret, self_catalog.
  destruct cat as [c|].
  - now rewrite Hobjs.
  - destruct (catalog mc) as [t|]; [now rewrite Hobjs|].
    destruct Hc as [Hc|Hc]; now elim Hc.
Qed.

(** X16.  Nothing to do: with no aperture, or with no frequency object
    registered and a table to read, the call returns and leaves the
    object exactly as it was (no column is added, no NaN is masked). *)
Theorem photometer_idle (args : list aperture) (cat : option table)
    (mc : MasterCatalog) :
  args = [] \/ (rs_objects_of mc = [] /\ (cat <> None \/ catalog mc <> None)) ->
  photometer args cat mc = Ok tt mc.
Proof.
  intros [->|(Hobjs & Hc)]; [reflexivity|].
  unfold photometer, bind.
  assert (H : forall prev,
            for_each_with args prev (photometer_aperture cat) mc = Ok prev mc).
  { induction args as [|ap args IH]; intros prev; [reflexivity|].
    cbn [for_each_with]. unfold bind.
    rewrite (photometer_aperture_idle cat ap prev mc Hobjs Hc). apply IH. }
  now rewrite H.
Qed.
End PhotometerEdges.

(** ** What every outcome leaves of the object *)

Lemma same_attributes_refl (mc : MasterCatalog) : same_attributes mc mc.
Proof. repeat split. Qed.

Lemma same_attributes_trans (a b c : MasterCatalog) :
  same_attributes a b -> same_attributes b c -> same_attributes a c.
Proof.
  intros (H1 & H2 & H3) (H4 & H5 & H6). repeat split; congruence.
Qed.

Lemma same_attributes_set (t : table) (mc : MasterCatalog) :
  same_attributes mc (set_catalog t mc).
Proof. repeat split. Qed.

Lemma bind_attrs {A B} (m : M A) (k : A -> M B) (mc : MasterCatalog) :
  same_attributes mc (object_after (m mc)) ->
  (forall a mc1, same_attributes mc1 (object_after (k a mc1))) ->
  same_attributes mc (object_after (bind m k mc)).
Proof.
  intros Hm Hk. unfold bind. destruct (m mc) as [a mc1|e mc1]; [|exact Hm].
  exact (same_attributes_trans _ _ _ Hm (Hk a mc1)).
Qed.

Lemma try_except_attrs {A} (m h : M A) (e : exn) (mc : MasterCatalog) :
  same_attributes mc (object_after (m mc)) ->
  (forall mc1, same_attributes mc1 (object_after (h mc1))) ->
  same_attributes mc (object_after (try_except m e h mc)).
Proof.
  intros Hm Hh. unfold try_except. destruct (m mc) as [a mc1|e' mc1]; [exact Hm|].
  destruct (exn_eqb e e'); [|exact Hm].
  exact (same_attributes_trans _ _ _ Hm (Hh mc1)).
Qed.

Lemma lift_attrs {A} (r : result A) (mc : MasterCatalog) :
  same_attributes mc (object_after (lift r mc)).
Proof. unfold lift. destruct r; apply same_attributes_refl. Qed.

Lemma self_catalog_attrs (mc : MasterCatalog) :
  same_attributes mc (object_after (self_catalog mc)).
Proof. unfold self_catalog. destruct (catalog mc); apply same_attributes_refl. Qed.

Lemma for_each_with_attrs {A V} (body : A -> V -> M V) (l : list A) :
  (forall a v mc, same_attributes mc (object_after (body a v mc))) ->
  forall v mc, same_attributes mc (object_after (for_each_with l v body mc)).
Proof.
  intros Hb. induction l as [|a l IH]; intros v mc; [apply same_attributes_refl|].
  cbn [for_each_with]. apply bind_attrs; [apply Hb|]. intros v' mc1. apply IH.
Qed.

Lemma for_each_attrs {A} (body : A -> M unit) (l : list A) :
  (forall a mc, same_attributes mc (object_after (body a mc))) ->
  forall mc, same_attributes mc (object_after (for_each l body mc)).
Proof.
  intros Hb. induction l as [|a l IH]; intros mc; [apply same_attributes_refl|].
  cbn [for_each]. apply bind_attrs; [apply Hb|]. intros _ mc1. apply IH.
Qed.

Ltac attrs :=
  repeat first
    [ apply same_attributes_refl
    | apply same_attributes_set
    | apply lift_attrs
    | apply self_catalog_attrs
    | apply bind_attrs; [|intros ? ?]
    | apply try_except_attrs; [|intros ?] ].

Section Untouched.
Context {N : Numerics}.

Lemma merge_columns_attrs (names : list string) (cols : list column)
    (npix : option column) (mc : MasterCatalog) :
  same_attributes mc (object_after (merge_columns names cols npix mc)).
Proof.
  unfold merge_columns. attrs; unfold update_catalog, ret, raise; cbn [object_after];
    attrs.
  destruct npix; cbn [object_after]; attrs.
Qed.

Lemma photometer_rs_attrs (ap : aperture) (cat : option table) (rs : RadioSource)
    (prev : option column) (mc : MasterCatalog) :
  same_attributes mc (object_after (photometer_rs ap cat rs prev mc)).
Proof.
  unfold photometer_rs. apply bind_attrs.
  { destruct cat; [apply same_attributes_refl | apply self_catalog_attrs]. }
  intros c mc1. cbv zeta. apply bind_attrs; [apply lift_attrs|].
  intros stats mc2. apply bind_attrs; [apply merge_columns_attrs|].
  intros _ mc3. apply same_attributes_refl.
Qed.

Lemma photometer_attrs (args : list aperture) (cat : option table)
    (mc : MasterCatalog) :
  same_attributes mc (object_after (photometer args cat mc)).
Proof.
  unfold photometer. apply bind_attrs; [|intros; apply same_attributes_refl].
  apply for_each_with_attrs. intros ap v mc1. unfold photometer_aperture.
  apply bind_attrs.
  - destruct cat; [apply same_attributes_refl|]. attrs.
  - intros _ mc2. apply bind_attrs; [apply same_attributes_refl|].
    intros objs mc3. apply for_each_with_attrs. intros. apply photometer_rs_attrs.
Qed.

Lemma filtered_catalog_attrs (cat : table) (aps : list aperture)
    (cols : list string) (mc : MasterCatalog) :
  same_attributes mc (object_after (filtered_catalog cat aps cols mc)).
Proof.
  unfold filtered_catalog. apply try_except_attrs; [attrs|].
  intros mc1. apply bind_attrs; [|intros; attrs].
  apply for_each_attrs. intros ap mc2. apply photometer_attrs.
Qed.

(** X17.  Whatever the outcome, a return or any exception at any point,
    [photometer] and [ffplot] leave the registry of frequency objects and
    the views [nonrejected] and [accepted] as they were: the table is the
    only attribute they write. *)
Theorem table_only_written (G : namespace) (args : list aperture)
    (cat : option table) (rsobj1 rsobj2 : RadioSource) (peak : bool)
    (mc : MasterCatalog) :
  same_attributes mc (object_after (photometer args cat mc))
  /\ same_attributes mc (object_after (ffplot G rsobj1 rsobj2 args peak mc)).
Proof.
  split; [apply photometer_attrs|].
  unfold ffplot. cbv zeta. apply bind_attrs; [apply self_catalog_attrs|].
  intros t mc1. apply bind_attrs.
  { unfold global, ret, raise. destruct (g_ellipse G); apply same_attributes_refl. }
  intros e mc2. apply bind_attrs.
  { unfold global, ret, raise. destruct (g_annulus G); apply same_attributes_refl. }
  intros a mc3. apply bind_attrs; [apply filtered_catalog_attrs|].
  intros catf mc4. attrs.
Qed.
End Untouched.

(** ** [ffplot], further *)

Lemma aperture_eqb_eq (a b : aperture) : aperture_eqb a b = true <-> a = b.
Proof.
  destruct a as [x], b as [y]. unfold aperture_eqb. simpl.
  rewrite String.eqb_eq. split; congruence.
Qed.

Lemma ap_set_In (l : list aperture) (x : aperture) : In x (ap_set l) <-> In x l.
Proof.
  induction l as [|a l IH]; simpl; [tauto|].
  rewrite filter_In, IH. split.
  - intros [H|[H _]]; auto.
  - intros [H|H]; [now left|]. destruct (aperture_eqb a x) eqn:E.
    + left. now apply aperture_eqb_eq.
    + right. split; [exact H | reflexivity].
Qed.

Lemma ap_xor_In (A : list aperture) (a x : aperture) :
  In a A -> In x (ap_xor A [a]) -> In x A.
Proof.
  intros Ha H. unfold ap_xor in H. apply in_app_or in H.
  destruct H as [H|H]; apply filter_In in H; destruct H as [H _]; [exact H|].
  destruct H as [<-|[]]. exact Ha.
Qed.

Lemma required_cols_In (rs1 rs2 : RadioSource) (peak : bool) (A : list aperture)
    (ap : aperture) :
  In ap A ->
  let cols := required_cols rs1 rs2 peak A in
  let stat := if peak then "_peak" else "_sum" in
  In (stat_name rs1 ap stat) cols /\ In (stat_name rs2 ap stat) cols
  /\ In (stat_name rs1 ap "_rms") cols /\ In (stat_name rs2 ap "_rms") cols.
Proof.
  intros H. cbv zeta. unfold required_cols. rewrite !in_flat_map.
  repeat split; exists ap; (split; [exact H|]); unfold required_cols_of;
    destruct peak; simpl; tauto.
Qed.

Lemma append_assoc3 (a b c : string) : (a +++ b) +++ c = a +++ (b +++ c).
Proof. induction a as [|x a IH]; simpl; [reflexivity | now rewrite IH]. Qed.

Lemma annulus_rms_name (rs : RadioSource) (a : aperture) :
  ap_name a = "annulus" -> stat_name rs a "_rms" = freq_id rs +++ "_annulus_rms".
Proof.
  intros H. unfold stat_name, col_prefix. rewrite H. now rewrite append_assoc3.
Qed.

Lemma has_col_take_rows (idx : list nat) (t : table) (n : string) :
  has_col (take_rows idx t) n = has_col t n.
Proof.
  rewrite !has_col_getcol, getcol_take_rows. now destruct (getcol t n).
Qed.

Lemma getitem_ok (t : table) (n : string) :
  has_col t n = true -> exists c, getitem t n = Success c.
Proof.
  rewrite has_col_getcol. unfold getitem.
  destruct (getcol t n) as [c|]; [now exists c | discriminate].
Qed.

Lemma getitem_fail (t : table) (n : string) :
  has_col t n = false -> getitem t n = Failure KeyError.
Proof.
  rewrite has_col_getcol. unfold getitem.
  destruct (getcol t n) as [c|]; [discriminate | reflexivity].
Qed.

Lemma mapR_total {A B} (f : A -> result B) (l : list A) :
  (forall x, In x l -> exists y, f x = Success y) ->
  exists l', mapR f l = Success l' /\ length l' = length l.
Proof.
  induction l as [|a l IH]; intros H; [now exists []|].
  destruct (H a (or_introl eq_refl)) as (b & Eb).
  destruct (IH (fun x Hx => H x (or_intror Hx))) as (l' & El & Hl).
  exists (b :: l'). simpl. rewrite Eb, El. simpl. now rewrite Hl.
Qed.

Lemma comparison_index_ok (t : table) (cols : list string) :
  forallb (has_col t) cols = true -> has_col t "rejected" = true ->
  exists index, comparison_index t cols = Success index.
Proof.
  intros Hall Hr. unfold comparison_index. rewrite Hall.
  rewrite has_col_getcol in Hr.
  destruct (getcol t "rejected") as [r|]; [eexists; reflexivity | discriminate].
Qed.

Lemma comparison_index_missing (t : table) (cols : list string) (n : string) :
  In n cols -> has_col t n = false -> comparison_index t cols = Failure KeyError.
Proof.
  intros Hn Hc. unfold comparison_index.
  destruct (forallb (has_col t) cols) eqn:E; [|reflexivity].
  rewrite forallb_forall in E. rewrite (E n Hn) in Hc. discriminate.
Qed.

Section ComparisonFurther.
Context {N : Numerics}.

Lemma filtered_catalog_direct (t : table) (aps : list aperture)
    (cols : list string) (index : list nat) (mc : MasterCatalog) :
  comparison_index t cols = Success index ->
  filtered_catalog t aps cols mc = Ok (take_rows index t) mc.
Proof.
  intros E. unfold filtered_catalog, try_except, bind, lift, ret. now rewrite E.
Qed.

(** X18.  When the master table has the required columns of the two
    frequencies and the apertures, [rejected] and [_name], and the second
    global aperture is called "annulus", [ffplot] gets to its comparison
    data without running any photometry: the object is exactly as it was,
    and there is one flux series per aperture other than the annulus for
    each frequency and one error series. *)
Theorem ffplot_completes (G : namespace) (rsobj1 rsobj2 : RadioSource)
    (apertures : list aperture) (peak : bool) (mc : MasterCatalog) (t : table)
    (ell ann : aperture) :
  catalog mc = Some t ->
  g_ellipse G = Some ell -> g_annulus G = Some ann ->
  ap_name ann = "annulus" ->
  forallb (has_col t)
    (required_cols (lower_freq rsobj1 rsobj2) (higher_freq rsobj1 rsobj2) peak
       (ap_set (apertures ++ [ell; ann]))) = true ->
  has_col t "rejected" = true -> has_col t "_name" = true ->
  exists d,
    ffplot G rsobj1 rsobj2 apertures peak mc = Ok d mc
    /\ length (flux1 d) = length (ap_xor (ap_set (apertures ++ [ell; ann])) [ann])
    /\ length (flux2 d) = length (flux1 d)
    /\ length (err1 d) = 1 /\ length (err2 d) = 1.
Proof.
  intros Hcat He Ha Hname Hall Hrej Hnm.
  destruct (comparison_index_ok _ _ Hall Hrej) as (index & Ei).
  set (A := ap_set (apertures ++ [ell; ann])) in *.
  set (rs1 := lower_freq rsobj1 rsobj2) in *.
  set (rs2 := higher_freq rsobj1 rsobj2) in *.
  assert (HannA : In ann A).
  { apply ap_set_In. apply in_or_app. right. simpl. auto. }
  rewrite forallb_forall in Hall.
  assert (Hget : forall n, In n (required_cols rs1 rs2 peak A) ->
            exists c, getitem (take_rows index t) n = Success c).
  { intros n Hn. apply getitem_ok. rewrite has_col_take_rows. now apply Hall. }
  destruct (mapR_total
              (fun ap => getitem (take_rows index t)
                           (stat_name rs1 ap (if peak then "_peak" else "_sum")))
              (ap_xor A [ann])) as (f1 & E1 & L1).
  { intros ap Hap. apply Hget.
    apply (required_cols_In rs1 rs2 peak A ap (ap_xor_In A ann ap HannA Hap)). }
  destruct (mapR_total
              (fun ap => getitem (take_rows index t)
                           (stat_name rs2 ap (if peak then "_peak" else "_sum")))
              (ap_xor A [ann])) as (f2 & E2 & L2).
  { intros ap Hap. apply Hget.
    apply (required_cols_In rs1 rs2 peak A ap (ap_xor_In A ann ap HannA Hap)). }
  destruct (Hget (freq_id rs1 +++ "_annulus_rms")) as (e1 & Ee1).
  { rewrite <- (annulus_rms_name rs1 ann Hname).
    apply (required_cols_In rs1 rs2 peak A ann HannA). }
  destruct (Hget (freq_id rs2 +++ "_annulus_rms")) as (e2 & Ee2).
  { rewrite <- (annulus_rms_name rs2 ann Hname).
    apply (required_cols_In rs1 rs2 peak A ann HannA). }
  destruct (getitem_ok (take_rows index t) "_name") as (labels & El).
  { now rewrite has_col_take_rows. }
  exists (mkComparison f1 f2 [e1] [e2] labels). split.
  - unfold ffplot. cbv zeta. unfold bind at 1. unfold self_catalog at 1.
    rewrite Hcat. unfold bind at 1. rewrite He. cbn [global]. unfold ret at 1.
    unfold bind at 1. rewrite Ha. cbn [global]. unfold ret at 1.
    fold A rs1 rs2. unfold bind at 1.
    rewrite (filtered_catalog_direct t A _ index mc Ei).
    unfold bind, lift. rewrite E1, E2, Ee1, Ee2, El. reflexivity.
  - cbn [flux1 flux2 err1 err2 length]. repeat split; congruence.
Qed.

Lemma for_each_photometer_has_col (aps : list aperture) :
  forall (mc mc' : MasterCatalog) (u : unit) (t : table),
    catalog mc = Some t ->
    for_each aps (fun ap => photometer [ap] None) mc = Ok u mc' ->
    exists t',
      catalog mc' = Some t'
      /\ forall n, has_col t' n = has_col t n || produced (rs_objects_of mc) aps n.
Proof.
  induction aps as [|ap aps IH]; intros mc mc' u t Hcat H.
  - simpl in H. unfold ret in H. inversion H; subst. exists t. split; [exact Hcat|].
    intros n. unfold produced. simpl. now rewrite orb_false_r.
  - cbn [for_each] in H. unfold bind in H.
    destruct (photometer [ap] None mc) as [[] mc1|] eqn:E1; [|discriminate].
    destruct (photometer_ok _ _ _ _ Hcat E1) as (t1 & Hc1 & Hattr & Hr).
    destruct (IH mc1 mc' u t1 Hc1 H) as (t' & Hc' & Hcols).
    exists t'. split; [exact Hc'|]. intros n. rewrite Hcols.
    rewrite (runs_has_col _ _ _ _ Hr n).
    rewrite <- (same_attributes_objects _ _ Hattr).
    unfold produced. simpl. rewrite orb_false_r. now rewrite orb_assoc.
Qed.

(** X19.  The recovery of [ffplot] runs the photometry of the registered
    frequency objects only.  When a required column is neither in the
    master table nor one the registered objects produce for the listed
    apertures (a frequency object that was never added, say), the call
    never returns: what the photometry leaves unraised is raised by the
    second look at the table. *)
Theorem ffplot_unregistered_raises (G : namespace) (rsobj1 rsobj2 : RadioSource)
    (apertures : list aperture) (peak : bool) (mc : MasterCatalog) (t : table)
    (ell ann : aperture) (n : string) :
  catalog mc = Some t ->
  g_ellipse G = Some ell -> g_annulus G = Some ann ->
  In n (required_cols (lower_freq rsobj1 rsobj2) (higher_freq rsobj1 rsobj2) peak
          (ap_set (apertures ++ [ell; ann]))) ->
  has_col t n = false ->
  produced (rs_objects_of mc) (ap_set (apertures ++ [ell; ann])) n = false ->
  exists e mc', ffplot G rsobj1 rsobj2 apertures peak mc = Raise e mc'.
Proof.
  intros Hcat He Ha Hn Hcol Hprod.
  unfold ffplot. cbv zeta. unfold bind at 1. unfold self_catalog at 1.
  rewrite Hcat. unfold bind at 1. rewrite He. cbn [global]. unfold ret at 1.
  unfold bind at 1. rewrite Ha. cbn [global]. unfold ret at 1.
  set (A := ap_set (apertures ++ [ell; ann])) in *.
  set (cols := required_cols _ _ peak A) in *.
  unfold bind at 1.
  assert (Hf : exists e mc', filtered_catalog t A cols mc = Raise e mc').
  { unfold filtered_catalog, try_except. unfold bind at 1. unfold lift at 1.
    rewrite (comparison_index_missing t cols n Hn Hcol). cbn [exn_eqb].
    unfold bind at 1.
    destruct (for_each A (fun ap => photometer [ap] None) mc) as [u mc1|e mc1] eqn:E;
      [|now exists e, mc1].
    destruct (for_each_photometer_has_col A mc mc1 u t Hcat E) as (t1 & Hc1 & Hcols).
    unfold bind at 1. unfold self_catalog at 1. rewrite Hc1.
    unfold bind at 1. unfold lift at 1.
    rewrite (comparison_index_missing t1 cols n Hn);
      [now exists KeyError, mc1|].
    now rewrite Hcols, Hcol, Hprod. }
  destruct Hf as (e & mc' & ->). now exists e, mc'.
Qed.
End ComparisonFurther.

(** ** Sources added after the photometry *)



Section AfterPhotometry.
Context {N : Numerics}.

End AfterPhotometry.

(** ** The order of the two frequency objects *)

Lemma SFltb_antisym (x y : spec_float) : SFltb x y = true -> SFltb y x = false.
Proof.
  unfold SFltb, SFcompare.
  destruct x as [s|s| |s m e], y as [s'|s'| |s' m' e'];
    try destruct s; try destruct s'; try discriminate; try reflexivity.
  - rewrite (Z.compare_antisym e e'). destruct (e ?= e')%Z; simpl;
      try discriminate; try reflexivity.
    change (PosDef.Pos.compare_cont Eq m' m) with (Pos.compare m' m).
    change (PosDef.Pos.compare_cont Eq m m') with (Pos.compare m m').
    rewrite (Pos.compare_antisym m m'). destruct (Pos.compare m m'); simpl;
      try discriminate; reflexivity.
  - rewrite (Z.compare_antisym e e'). destruct (e ?= e')%Z; simpl;
      try discriminate; try reflexivity.
    change (PosDef.Pos.compare_cont Eq m' m) with (Pos.compare m' m).
    change (PosDef.Pos.compare_cont Eq m m') with (Pos.compare m m').
    rewrite (Pos.compare_antisym m m'). destruct (Pos.compare m m'); simpl;
      try discriminate; reflexivity.
Qed.

Lemma ltb_antisym (x y : float) :
  PrimFloat.ltb x y = true -> PrimFloat.ltb y x = false.
Proof. rewrite !ltb_spec. apply SFltb_antisym. Qed.

Lemma lower_higher_swap (rsobj1 rsobj2 : RadioSource) :
  PrimFloat.ltb (nu rsobj1) (nu rsobj2) = true
  \/ PrimFloat.ltb (nu rsobj2) (nu rsobj1) = true ->
  lower_freq rsobj2 rsobj1 = lower_freq rsobj1 rsobj2
  /\ higher_freq rsobj2 rsobj1 = higher_freq rsobj1 rsobj2.
Proof.
  unfold lower_freq, higher_freq. intros [H|H].
  - rewrite H, (ltb_antisym _ _ H). auto.
  - rewrite H, (ltb_antisym _ _ H). auto.
Qed.

Section Order.
Context {N : Numerics}.

(** X21.  [ffplot] puts the object of lower frequency first: when one of
    the two frequencies is strictly below the other, the two orders of the
    arguments give the same outcome.  (With equal frequencies, or a NaN,
    nothing is swapped.) *)
Theorem ffplot_argument_order (G : namespace) (rsobj1 rsobj2 : RadioSource)
    (apertures : list aperture) (peak : bool) (mc : MasterCatalog) :
  PrimFloat.ltb (nu rsobj1) (nu rsobj2) = true
  \/ PrimFloat.ltb (nu rsobj2) (nu rsobj1) = true ->
  ffplot G rsobj2 rsobj1 apertures peak mc
  = ffplot G rsobj1 rsobj2 apertures peak mc.
Proof.
  intros H. destruct (lower_higher_swap rsobj1 rsobj2 H) as [El Eh].
  unfold ffplot. now rewrite El, Eh.
Qed.

(** X22.  A table with no source in it.  The extraction gives no pixel
    set, the loop that would bind [aperture_npix_col] never runs, and the
    call raises [NameError] at the first frequency object, after the five
    columns of that pair, if the table had them all, are removed. *)
Theorem photometer_no_source_raises (ap : aperture) (aps : list aperture)
    (cat : option table) (mc : MasterCatalog) (t : table) (rs : RadioSource)
    (l : list RadioSource) :
  catalog mc = Some t ->
  rs_objects_of mc = rs :: l ->
  get_pixels rs ap (match cat with Some c => c | None => t end) = [] ->
  photometer (ap :: aps) cat mc
  = Raise NameError
      (if forallb (has_col t) (stat_names (freq_id rs) ap)
       then set_catalog (without (stat_names (freq_id rs) ap) t) mc
       else mc).
Proof.
  intros Hcat Hobjs Hpix.
  unfold photometer. cbn [for_each_with]. unfold bind at 1. unfold bind at 1.
  assert (E : photometer_aperture cat ap None mc
              = Raise NameError
                  (if forallb (has_col t) (stat_names (freq_id rs) ap)
                   then set_catalog (without (stat_names (freq_id rs) ap) t) mc
                   else mc)).
  { unfold photometer_aperture. unfold bind at 1.
    assert (E0 : (match cat with
                  | Some _ => ret tt
                  | None => self_catalog ;; ret tt
                  end) mc = Ok tt mc).
    { destruct cat; [reflexivity|]. unfold bind, self_catalog, ret. now rewrite Hcat. }
    rewrite E0. unfold bind at 1. rewrite Hobjs. cbn [for_each_with].
    unfold bind at 1.
    assert (E1 : photometer_rs ap cat rs None mc
                 = Raise NameError
                     (if forallb (has_col t) (stat_names (freq_id rs) ap)
                      then set_catalog (without (stat_names (freq_id rs) ap) t) mc
                      else mc)).
    { unfold photometer_rs. unfold bind at 1.
      assert (E2 : (match cat with
                    | Some c' => ret c'
                    | None => self_catalog
                    end) mc = Ok (match cat with Some c => c | None => t end) mc).
      { destruct cat; [reflexivity|]. unfold self_catalog. now rewrite Hcat. }
      rewrite E2. cbv zeta. rewrite Hpix.
      unfold bind at 1. unfold lift at 1. unfold stat_columns. cbn [mapR rbind].
      unfold bind at 1. cbn [fst snd].
      unfold merge_columns. unfold bind at 1. unfold try_except.
      unfold bind at 1. unfold self_catalog at 1. rewrite Hcat.
      unfold bind at 1. unfold lift at 1. unfold remove_columns.
      destruct (forallb (has_col t) (stat_names (freq_id rs) ap)).
      - unfold update_catalog at 1. unfold bind at 1. unfold self_catalog at 1.
        cbn [catalog set_catalog]. unfold bind at 1. reflexivity.
      - cbn [exn_eqb]. unfold ret at 1. unfold bind at 1.
        unfold self_catalog at 1. rewrite Hcat. unfold bind at 1. reflexivity. }
    now rewrite E1. }
  now rewrite E.
Qed.
End Order.

(** X23.  [add_sources] with several tables is not one step: when a table
    cannot be stacked, the tables before it stay stacked, the rest is not
    looked at, and the error of the stack is the error of the call. *)
Theorem add_sources_stops_at_failure (l1 l2 : list table) (s : table) :
  forall (mc mc1 : MasterCatalog) (t1 : table) (e : exn),
    add_sources l1 mc = Ok tt mc1 ->
    catalog mc1 = Some t1 ->
    vstack t1 s = Failure e ->
    add_sources (l1 ++ s :: l2) mc = Raise e mc1.
Proof.
  induction l1 as [|s1 l1 IH]; intros mc mc1 t1 e H Hc1 Hv.
  - unfold add_sources in H. simpl in H. unfold ret in H. inversion H; subst mc1.
    simpl. rewrite add_sources_cons, Hc1, Hv. reflexivity.
  - simpl. rewrite add_sources_cons in H |- *.
    destruct (catalog mc) as [t|]; [|discriminate].
    destruct (vstack t s1) as [st|]; [|discriminate].
    exact (IH _ mc1 t1 e H Hc1 Hv).
Qed.

(** ** [grab], further *)





(** X25.  No method binds [accepted]: on every object the constructor
    builds, whatever is then registered with [add_objects], a [grab] with
    [skip_rejects=True] raises [AttributeError], for a single name as for
    a collection. *)
Theorem grab_skip_rejects_raises (G : namespace) (args more : list object)
    (cat : option table) (name : name_arg) :
  let built :=
    object_after (add_objects more (object_after (MasterCatalog_init args cat))) in
  accepted built = None
  /\ grab G name true built = Raise AttributeError built.
Proof.
  cbv zeta.
  assert (H0 : accepted (object_after (MasterCatalog_init args cat)) = None).
  { unfold MasterCatalog_init. destruct cat as [t|].
    - destruct (getcol t "rejected"); [|reflexivity].
      destruct (add_objects_keeps_tables args
                  (mkMasterCatalog (Some t)
                     (Some (filter_rows (col_eq_int c 0) t)) None []))
        as (_ & _ & Ha).
      exact Ha.
    - destruct (add_objects_keeps_tables args (mkMasterCatalog None None None []))
        as (_ & _ & Ha).
      exact Ha. }
  assert (H1 : accepted
                 (object_after
                    (add_objects more (object_after (MasterCatalog_init args cat))))
               = None).
  { destruct (add_objects_keeps_tables more
                (object_after (MasterCatalog_init args cat))) as (_ & _ & Ha).
    now rewrite Ha. }
  split; [exact H1|]. now apply grab_skip_rejects_unbound.
Qed.

(** ** The recovery of [ffplot] *)

Section Recovered.
Context {N : Numerics}.

(** X26.  A side effect of [ffplot].  When a required column is missing
    and the call still returns, it has run the photometry on the master
    table: the table then holds, beside its old columns, the five columns
    of every registered frequency object (not only the two compared) for
    each aperture of the call and for the two global ones.  The other
    attributes are as before. *)
Theorem ffplot_recovery_adds_columns (G : namespace) (rsobj1 rsobj2 : RadioSource)
    (apertures : list aperture) (peak : bool) (mc mc' : MasterCatalog) (t : table)
    (ell ann : aperture) (n : string) (d : comparison) :
  catalog mc = Some t ->
  g_ellipse G = Some ell -> g_annulus G = Some ann ->
  In n (required_cols (lower_freq rsobj1 rsobj2) (higher_freq rsobj1 rsobj2) peak
          (ap_set (apertures ++ [ell; ann]))) ->
  has_col t n = false ->
  ffplot G rsobj1 rsobj2 apertures peak mc = Ok d mc' ->
  same_attributes mc mc'
  /\ exists t',
       catalog mc' = Some t'
       /\ forall m,
            has_col t' m
            = has_col t m
              || produced (rs_objects_of mc) (ap_set (apertures ++ [ell; ann])) m.
Proof.
  intros Hcat He Ha Hn Hcol H.
  set (A := ap_set (apertures ++ [ell; ann])) in *.
  set (cols := required_cols _ _ peak A) in *.
  unfold ffplot in H. cbv zeta in H. unfold bind at 1 in H.
  unfold self_catalog at 1 in H. rewrite Hcat in H.
  unfold bind at 1 in H. rewrite He in H. cbn [global] in H. unfold ret at 1 in H.
  unfold bind at 1 in H. rewrite Ha in H. cbn [global] in H. unfold ret at 1 in H.
  fold A cols in H. unfold bind at 1 in H.
  destruct (filtered_catalog t A cols mc) as [catf mc1|] eqn:Ef; [|discriminate].
  assert (Hmc : mc' = mc1).
  { unfold bind, lift, ret in H.
    repeat match type of H with
           | match match ?r with _ => _ end with _ => _ end = _ =>
               destruct r; [|discriminate]
           end.
    now inversion H. }
  subst mc1. clear H.
  split.
  { pose proof (filtered_catalog_attrs t A cols mc) as Hattr.
    now rewrite Ef in Hattr. }
  unfold filtered_catalog, try_except in Ef. unfold bind at 1 in Ef.
  unfold lift at 1 in Ef.
  rewrite (comparison_index_missing t cols n Hn Hcol) in Ef. cbn [exn_eqb] in Ef.
  unfold bind at 1 in Ef.
  destruct (for_each A (fun ap => photometer [ap] None) mc) as [u mc1|] eqn:E;
    [|discriminate].
  destruct (for_each_photometer_has_col A mc mc1 u t Hcat E) as (t1 & Hc1 & Hcols).
  unfold bind at 1 in Ef. unfold self_catalog at 1 in Ef. rewrite Hc1 in Ef.
  unfold bind, lift, ret in Ef.
  destruct (comparison_index t1 cols); [|discriminate].
  inversion Ef; subst mc1. exists t1. split; [exact Hc1 | exact Hcols].
Qed.
End Recovered.

(** ** The further properties on the example data *)

Lemma add_objects_last_wins_witness :
  exists mc',
    add_objects [ObjRadioSource b3_source; ObjRadioSource b6_source;
                 ObjRadioSource (fixed_source "b3" 93 2 [])] two_sources_catalog
    = Ok tt mc'
    /\ dict_get "radiosource_b3" (radiosources mc')
       = Some (fixed_source "b3" 93 2 [])
    /\ dict_get "radiosource_b6" (radiosources mc') = Some b6_source.
Proof.
  destruct (add_objects_last_wins
              [ObjRadioSource b3_source; ObjRadioSource b6_source;
               ObjRadioSource (fixed_source "b3" 93 2 [])]
              two_sources_catalog eq_refl)
    as (mc' & H & _ & _ & _ & Hlast & _).
  exists mc'. split; [exact H|]. split.
  - apply (Hlast [b3_source; b6_source] (fixed_source "b3" 93 2 []) []);
      [reflexivity | simpl; tauto].
  - apply (Hlast [b3_source] b6_source [fixed_source "b3" 93 2 []]);
      [reflexivity|]. simpl. intros [H0|[]]. discriminate H0.
Defined.

Lemma add_objects_catalog_raises_witness :
  exists mc',
    add_objects ([ObjRadioSource b3_source]
                 ++ ObjMasterCatalog two_frequency_catalog :: [ObjRadioSource b6_source])
      two_sources_catalog
    = Raise TypeError mc'
    /\ catalog mc' = catalog two_sources_catalog
    /\ nonrejected mc' = nonrejected two_sources_catalog
    /\ accepted mc' = accepted two_sources_catalog
    /\ radiosources mc'
       = register (frequency_objects [ObjRadioSource b3_source])
           (radiosources two_sources_catalog).
Proof.
  apply (add_objects_catalog_raises [ObjRadioSource b3_source]
           [ObjRadioSource b6_source] two_frequency_catalog two_sources_catalog).
  - reflexivity.
  - vm_compute. discriminate.
Defined.



Lemma new_sources_wf : wf_table new_sources.
Proof. split; [closed_nodup | repeat constructor]. Qed.

Lemma add_sources_well_formed_witness :
  exists t',
    catalog (object_after (add_sources [more_sources; new_sources] two_sources_catalog))
    = Some t'
    /\ wf_table t'
    /\ nrows t' = nrows two_sources + total_rows [more_sources; new_sources]
    /\ ([more_sources; new_sources] <> [] -> dense_index t').
Proof.
  apply (add_sources_well_formed [more_sources; new_sources] two_sources_catalog
           _ two_sources).
  - reflexivity.
  - exact two_sources_wf.
  - constructor; [apply more_sources_wf|].
    constructor; [apply new_sources_wf | constructor].
  - vm_compute. reflexivity.
Defined.


Lemma photometer_well_formed_witness :
  exists t',
    catalog (object_after
               (photometer (N := RefNumerics) [ellipse] None nan_cell_catalog))
    = Some t'
    /\ wf_table t'
    /\ forall n i, untouched (rs_objects_of nan_cell_catalog) [ellipse] n ->
         masked (one_source ++ [unmasked "x_cen" (DFloat [fnan])]) n i = true ->
         masked t' n i = true.
Proof.
  apply (photometer_well_formed (N := RefNumerics) [ellipse] nan_cell_catalog _
           (one_source ++ [unmasked "x_cen" (DFloat [fnan])])).
  - reflexivity.
  - apply one_source_wf; [repeat constructor | closed_nodup].
  - vm_compute. reflexivity.
Defined.


Lemma photometer_catalog_argument_witness :
  photometer (N := RefNumerics) [ellipse; annulus]
    (Some (one_source ++ [unmasked "b3_ellipse_peak" (DFloat [0]%float)]))
    three_pixel_catalog
  = photometer (N := RefNumerics) [ellipse; annulus] None three_pixel_catalog.
Proof.
  apply (photometer_catalog_argument (N := RefNumerics) [ellipse; annulus]
           (one_source ++ [unmasked "b3_ellipse_peak" (DFloat [0]%float)])
           one_source three_pixel_catalog).
  - reflexivity.
  - reflexivity.
  - intros rs Hin. cbv in Hin. destruct Hin as [<-|[]].
    intros ap t t' _. reflexivity.
Defined.



Lemma photometer_idle_witness :
  photometer (N := RefNumerics) [ellipse; annulus] None two_sources_catalog
  = Ok tt two_sources_catalog.
Proof.
  apply (photometer_idle (N := RefNumerics) [ellipse; annulus] None
           two_sources_catalog).
  right. split; [reflexivity|]. right. vm_compute. discriminate.
Defined.

Lemma measured_table_bound : catalog measured_catalog = Some measured_table.
Proof. vm_compute. reflexivity. Qed.


Lemma ffplot_completes_witness :
  exists d,
    ffplot (N := RefNumerics) bound_namespace b6_source b3_source [] false
      measured_catalog
    = Ok d measured_catalog
    /\ length (flux1 d)
       = length (ap_xor (ap_set ([] ++ [ellipse; annulus])) [annulus])
    /\ length (flux2 d) = length (flux1 d)
    /\ length (err1 d) = 1 /\ length (err2 d) = 1.
Proof.
  apply (ffplot_completes (N := RefNumerics) bound_namespace b6_source b3_source
           [] false measured_catalog measured_table ellipse annulus).
  - exact measured_table_bound.
  - reflexivity.
  - reflexivity.
  - reflexivity.
  - vm_compute. reflexivity.
  - vm_compute. reflexivity.
  - vm_compute. reflexivity.
Defined.

Lemma ffplot_unregistered_raises_witness :
  exists e mc',
    ffplot (N := RefNumerics) bound_namespace b3_source b6_source [] false
      b3_only_catalog
    = Raise e mc'.
Proof.
  apply (ffplot_unregistered_raises (N := RefNumerics) bound_namespace b3_source
           b6_source [] false b3_only_catalog two_sources ellipse annulus
           "b6_ellipse_rms").
  - reflexivity.
  - reflexivity.
  - reflexivity.
  - vm_compute. tauto.
  - reflexivity.
  - vm_compute. reflexivity.
Defined.


Lemma ffplot_argument_order_witness :
  ffplot (N := RefNumerics) bound_namespace b6_source b3_source [] false
    two_frequency_catalog
  = ffplot (N := RefNumerics) bound_namespace b3_source b6_source [] false
      two_frequency_catalog.
Proof.
  apply (ffplot_argument_order (N := RefNumerics) bound_namespace b3_source
           b6_source [] false two_frequency_catalog).
  left. vm_compute. reflexivity.
Defined.

Lemma photometer_no_source_raises_witness :
  photometer (N := RefNumerics) [ellipse] None no_sources_catalog
  = Raise NameError
      (if forallb (has_col no_sources)
            (stat_names (freq_id (fixed_source "b3" 93 2 [])) ellipse)
       then set_catalog
              (without (stat_names (freq_id (fixed_source "b3" 93 2 [])) ellipse)
                 no_sources) no_sources_catalog
       else no_sources_catalog).
Proof.
  apply (photometer_no_source_raises (N := RefNumerics) ellipse [] None
           no_sources_catalog no_sources (fixed_source "b3" 93 2 []) []).
  - reflexivity.
  - reflexivity.
  - reflexivity.
Defined.

Lemma add_sources_stops_at_failure_witness :
  add_sources ([more_sources] ++ numbered_sources :: [new_sources])
    two_sources_catalog
  = Raise TableMergeError
      (object_after (add_sources [more_sources] two_sources_catalog)).
Proof.
  eapply (add_sources_stops_at_failure [more_sources] [new_sources]
            numbered_sources two_sources_catalog _ _ TableMergeError).
  - vm_compute. reflexivity.
  - vm_compute. reflexivity.
  - vm_compute. reflexivity.
Defined.

Lemma ffplot_recovery_adds_columns_witness :
  exists d mc',
    ffplot (N := RefNumerics) bound_namespace b3_source b6_source [] false
      two_frequency_catalog
    = Ok d mc'
    /\ same_attributes two_frequency_catalog mc'
    /\ exists t',
         catalog mc' = Some t'
         /\ forall m,
              has_col t' m
              = has_col two_sources m
                || produced (rs_objects_of two_frequency_catalog)
                     (ap_set ([] ++ [ellipse; annulus])) m.
Proof.
  eexists. eexists. split; [vm_compute; reflexivity|].
  eapply (ffplot_recovery_adds_columns (N := RefNumerics) bound_namespace b3_source
            b6_source [] false two_frequency_catalog _ two_sources ellipse annulus
            "b3_ellipse_rms").
  - reflexivity.
  - reflexivity.
  - reflexivity.
  - vm_compute. tauto.
  - reflexivity.
  - vm_compute. reflexivity.
Defined.

